(** * Routine Finder: the filter-and-sort query engine and the option domains

    A shallow embedding of [src/unnamed/part_000] (the page script of the
    routine finder).  The rows come from [res.json()] (or the cached copy
    in [localStorage]), so a field of a row is a JSON value; the filter
    inputs are the [value] strings of the text box and the six selects.

    Scope of the model: a field is absent ([undefined]), [null], a
    boolean, an integer or a string.  JSON arrays, objects and numbers with
    a fraction are not modelled, and no theorem below speaks about rows
    holding them: [String([])] is "", and an object whose own [toString]
    is not a function makes [join], [String] and the property-key lookup of
    [dayOrder] throw, behaviours the model does not have.

    Text is modelled as Rocq [string]s of 8-bit characters, read as the
    code points U+0000..U+00FF (Latin-1).  On that range the JavaScript
    primitives used by the script are written out exactly: [toLowerCase]
    (A-Z and U+00C0..U+00DE except U+00D7), [trim] and the regular
    expression class [\s] (tab, LF, VT, FF, CR, space, U+00A0), [\d]
    (ASCII digits) and the case folding of a non-unicode [/i] regular
    expression (only ASCII letters fold onto ASCII letters).

    JSON numbers are modelled by their integer value (a [Z]); their
    [ToString] is the decimal form, as JavaScript prints integers below
    10^21. *)

From Stdlib Require Import ZArith Lia List Bool Ascii String Permutation Sorted.
Import ListNotations.
Open Scope string_scope.
Open Scope Z_scope.

(* ------------------------------------------------------------------ *)
(** ** JSON values and the JavaScript conversions the script relies on *)

(** The values a field of a row can hold in this model: the JSON
    primitives with integral numbers (see the scope above). *)
Inductive jsval : Type :=
| JUndefined
| JNull
| JBool (b : bool)
| JNum (n : Z)
| JStr (s : string).

Definition jsval_eqb (x y : jsval) : bool :=
  match x, y with
  | JUndefined, JUndefined => true
  | JNull, JNull => true
  | JBool a, JBool b => Bool.eqb a b
  | JNum a, JNum b => Z.eqb a b
  | JStr a, JStr b => String.eqb a b
  | _, _ => false
  end.

(** [Boolean(v)]: the truthiness used by [||], [filter(Boolean)] and
    [some(v => v)]. *)
Definition truthy (v : jsval) : bool :=
  match v with
  | JUndefined | JNull => false
  | JBool b => b
  | JNum n => negb (Z.eqb n 0)
  | JStr s => negb (String.eqb s "")
  end.

(** [v || ""] *)
Definition or_empty (v : jsval) : jsval :=
  if truthy v then v else JStr "".

Definition digit_char (d : Z) : ascii := ascii_of_nat (48 + Z.to_nat d).

Fixpoint dec_aux (fuel : nat) (n : Z) (acc : string) : string :=
  match fuel with
  | O => acc
  | S f =>
      let acc' := String (digit_char (n mod 10)) acc in
      if n <? 10 then acc' else dec_aux f (n / 10) acc'
  end.

(** Decimal form of a non-negative integer. *)
Definition dec_string (n : Z) : string :=
  dec_aux (S (Z.to_nat (Z.log2 n))) n "".

Definition number_to_string (n : Z) : string :=
  if n <? 0 then String "-" (dec_string (- n)) else dec_string n.

(** [ToString(v)] (also [ToPropertyKey] for these primitive values). *)
Definition to_string (v : jsval) : string :=
  match v with
  | JUndefined => "undefined"
  | JNull => "null"
  | JBool true => "true"
  | JBool false => "false"
  | JNum n => number_to_string n
  | JStr s => s
  end.

(** The element conversion of [Array.prototype.join]: [undefined] and
    [null] become the empty string. *)
Definition join_elem (v : jsval) : string :=
  match v with
  | JUndefined | JNull => ""
  | _ => to_string v
  end.

(** [arr.join(sep)] *)
Definition join (sep : string) (l : list string) : string :=
  String.concat sep l.

(* ------------------------------------------------------------------ *)
(** ** Characters and strings *)

Definition is_ws (c : ascii) : bool :=
  let n := nat_of_ascii c in
  (Nat.leb 9 n && Nat.leb n 13) || Nat.eqb n 32 || Nat.eqb n 160.

Definition is_digit (c : ascii) : bool :=
  let n := nat_of_ascii c in Nat.leb 48 n && Nat.leb n 57.

(** Lower-casing of one code point of the Latin-1 range. *)
Definition lower_char (c : ascii) : ascii :=
  let n := nat_of_ascii c in
  if (Nat.leb 65 n && Nat.leb n 90)
     || (Nat.leb 192 n && Nat.leb n 222 && negb (Nat.eqb n 215))
  then ascii_of_nat (n + 32) else c.

(** [s.toLowerCase()] *)
Fixpoint toLowerCase (s : string) : string :=
  match s with
  | EmptyString => EmptyString
  | String c t => String (lower_char c) (toLowerCase t)
  end.

Fixpoint trim_start (s : string) : string :=
  match s with
  | EmptyString => EmptyString
  | String c t => if is_ws c then trim_start t else s
  end.

Fixpoint trim_end (s : string) : string :=
  match s with
  | EmptyString => EmptyString
  | String c t =>
      let t' := trim_end t in
      if String.eqb t' "" && is_ws c then "" else String c t'
  end.

(** [s.trim()] *)
Definition trim (s : string) : string := trim_end (trim_start s).

Fixpoint starts_with (s pat : string) : bool :=
  match pat, s with
  | EmptyString, _ => true
  | String p pt, String c st => Ascii.eqb p c && starts_with st pt
  | String _ _, EmptyString => false
  end.

(** [s.includes(pat)] *)
Fixpoint includes (s pat : string) : bool :=
  starts_with s pat ||
  match s with
  | EmptyString => false
  | String _ t => includes t pat
  end.

(* ------------------------------------------------------------------ *)
(** ** Rows and filters *)

(** A row of the sheet: the six columns the script reads
    ([r.Day], [r["Time Slot"]], ...); an absent column is [JUndefined]. *)
Record row : Type := mkRow {
  Day : jsval;
  Time_Slot : jsval;
  Course_Code : jsval;
  Teacher : jsval;
  Semester_Section : jsval;
  Room : jsval
}.

(** The raw [value]s of [els.q] and of the six selects. *)
Record inputs : Type := mkInputs {
  in_q : string;
  in_day : string;
  in_slot : string;
  in_course : string;
  in_teacher : string;
  in_semsec : string;
  in_room : string
}.

(** The object returned by [currentFilters()]. *)
Record filters : Type := mkFilters {
  f_q : string;
  f_day : string;
  f_slot : string;
  f_course : string;
  f_teacher : string;
  f_semsec : string;
  f_room : string
}.

Definition currentFilters (i : inputs) : filters :=
  {| f_q := toLowerCase (trim (in_q i));
     f_day := in_day i;
     f_slot := in_slot i;
     f_course := in_course i;
     f_teacher := in_teacher i;
     f_semsec := in_semsec i;
     f_room := in_room i |}.

Definition str_truthy (s : string) : bool := negb (String.eqb s "").

(** [Object.values(currentFilters()).some(v => v)] *)
Definition hasAnyFilter (f : filters) : bool :=
  existsb str_truthy
    [f_q f; f_day f; f_slot f; f_course f; f_teacher f; f_semsec f; f_room f].

(** [!f.x || field === f.x] *)
Definition cat_ok (sel : string) (v : jsval) : bool :=
  negb (str_truthy sel) || jsval_eqb v (JStr sel).

Definition row_text (r : row) : string :=
  join " " (map join_elem
    [Day r; Time_Slot r; Course_Code r; Teacher r; Semester_Section r; Room r]).

(** The predicate of [rows.filter(r => ...)] in [applyFilters]. *)
Definition row_matches (f : filters) (r : row) : bool :=
  let matchQ := negb (str_truthy (f_q f))
                || includes (toLowerCase (row_text r)) (f_q f) in
  matchQ
  && cat_ok (f_day f) (Day r)
  && cat_ok (f_slot f) (Time_Slot r)
  && cat_ok (f_course f) (Course_Code r)
  && cat_ok (f_teacher f) (Teacher r)
  && cat_ok (f_semsec f) (Semester_Section r)
  && cat_ok (f_room f) (Room r).

Definition applyFilters (rows : list row) (f : filters) : list row :=
  filter (row_matches f) rows.

(* ------------------------------------------------------------------ *)
(** ** [dayOrder]: the lookup [DAY_ORDER[day] ?? 99]

    [DAY_ORDER] is an object literal, so the lookup also finds the members
    inherited from [Object.prototype]; those are functions (or, for
    [__proto__], an object), not [undefined], so [?? 99] returns them and
    the subtraction in the comparators yields [NaN].  [None] stands for
    such a non-numeric result. *)

Definition object_prototype_keys : list string :=
  ["constructor"; "__defineGetter__"; "__defineSetter__"; "hasOwnProperty";
   "__lookupGetter__"; "__lookupSetter__"; "isPrototypeOf";
   "propertyIsEnumerable"; "toString"; "valueOf"; "__proto__";
   "toLocaleString"].

Definition DAY_ORDER : list (string * Z) :=
  [("Sunday", 1); ("Monday", 2); ("Tuesday", 3); ("Wednesday", 4);
   ("Thursday", 5); ("Friday", 6); ("Saturday", 7)].

Fixpoint assoc_str (k : string) (m : list (string * Z)) : option Z :=
  match m with
  | [] => None
  | (k', v) :: t => if String.eqb k k' then Some v else assoc_str k t
  end.

Definition dayOrder (day : jsval) : option Z :=
  let key := to_string day in
  match assoc_str key DAY_ORDER with
  | Some n => Some n
  | None => if existsb (String.eqb key) object_prototype_keys then None
            else Some 99
  end.

(** Sign of [x - y] for two results of [dayOrder]; [NaN] counts as 0 in
    [Array.prototype.sort]. *)
Definition sub_sign (x y : option Z) : comparison :=
  match x, y with
  | Some a, Some b => Z.compare a b
  | _, _ => Eq
  end.

(* ------------------------------------------------------------------ *)
(** ** [slotOrder]: [/slot\s*(\d+)/i.exec(slot || "")] and [Number(m[1])] *)

(** A JavaScript number as produced by [Number(digits)] or the literal
    [9999]: an integer-valued double or [Infinity]. *)
Inductive num : Type :=
| NFin (z : Z)
| NInf.

Definition num_eqb (x y : num) : bool :=
  match x, y with
  | NFin a, NFin b => Z.eqb a b
  | NInf, NInf => true
  | _, _ => false
  end.

(** Sign of [x - y] ([Infinity - Infinity] is [NaN], counted as 0). *)
Definition num_compare (x y : num) : comparison :=
  match x, y with
  | NFin a, NFin b => Z.compare a b
  | NFin _, NInf => Lt
  | NInf, NFin _ => Gt
  | NInf, NInf => Eq
  end.

(** Rounding of a non-negative integer to the nearest double (ties to
    even), [Infinity] past the largest finite double. *)
Definition round_double (n : Z) : num :=
  if n <? 2 ^ 53 then NFin n
  else
    let s := Z.log2 n - 52 in
    let q := n / 2 ^ s in
    let r := n mod 2 ^ s in
    let half := 2 ^ (s - 1) in
    let q' := if half <? r then q + 1
              else if r <? half then q
              else if Z.odd q then q + 1 else q in
    let v := q' * 2 ^ s in
    if 2 ^ 1024 <=? v then NInf else NFin v.

Fixpoint digits_value_aux (s : string) (acc : Z) : Z :=
  match s with
  | EmptyString => acc
  | String c t => digits_value_aux t (acc * 10 + (Z.of_nat (nat_of_ascii c) - 48))
  end.

(** The integer written by a string of decimal digits. *)
Definition digits_value (d : string) : Z := digits_value_aux d 0.

(** [Number(d)] for a non-empty string of decimal digits. *)
Definition Number_of_digits (d : string) : num := round_double (digits_value d).

(** Case folding of a non-unicode [/i] pattern, restricted to the letters
    of the pattern [slot]: only ASCII letters fold onto ASCII letters. *)
Definition fold_ascii (c : ascii) : ascii :=
  let n := nat_of_ascii c in
  if Nat.leb 65 n && Nat.leb n 90 then ascii_of_nat (n + 32) else c.

Fixpoint fold_string (s : string) : string :=
  match s with
  | EmptyString => EmptyString
  | String c t => String (fold_ascii c) (fold_string t)
  end.

Fixpoint drop (n : nat) (s : string) : string :=
  match n, s with
  | O, _ => s
  | S _, EmptyString => EmptyString
  | S k, String _ t => drop k t
  end.

(** Greedy [\s*]. *)
Fixpoint skip_ws (s : string) : string :=
  match s with
  | EmptyString => EmptyString
  | String c t => if is_ws c then skip_ws t else s
  end.

(** Greedy [\d+] (empty when no digit follows). *)
Fixpoint digit_run (s : string) : string :=
  match s with
  | EmptyString => EmptyString
  | String c t => if is_digit c then String c (digit_run t) else EmptyString
  end.

(** The match attempt of [/slot\s*(\d+)/i] at the start of [s]: the
    capture [m[1]].  Backtracking [\s*] cannot help, since the character
    after a shorter [\s*] is white space, not a digit. *)
Definition slot_match_here (s : string) : option string :=
  if starts_with (fold_string s) "slot" then
    let d := digit_run (skip_ws (drop 4 s)) in
    if String.eqb d "" then None else Some d
  else None.

(** [RegExp.prototype.exec]: the leftmost match. *)
Fixpoint slot_exec (s : string) : option string :=
  match s with
  | EmptyString => None
  | String _ t =>
      match slot_match_here s with
      | Some d => Some d
      | None => slot_exec t
      end
  end.

Definition slotOrder (slot : jsval) : num :=
  match slot_exec (to_string (or_empty slot)) with
  | Some d => Number_of_digits d
  | None => NFin 9999
  end.

(* ------------------------------------------------------------------ *)
(** ** [Array.prototype.sort]

    The result of [sort] is fixed by ECMAScript only when the comparator
    is consistent on the array (then it is the unique stable sort);
    otherwise it is implementation-defined.  The model follows V8's
    [ArrayTimSort] on arrays of fewer than 64 elements, a single run:
    [CountAndMakeRun] (the longest non-descending or strictly descending
    prefix, the latter reversed) followed by [BinaryInsertionSort] of the
    remaining elements.  The comparator is given by the sign of its result
    ([Lt] negative, [Gt] positive, [Eq] zero or [NaN]); [None] is a thrown
    exception, which aborts the sort. *)

Definition is_lt (o : comparison) : bool :=
  match o with Lt => true | _ => false end.

Section ArraySort.
Variable A : Type.
Variable cmp : A -> A -> option comparison.

(** The loop of [CountAndMakeRun]: the rest of the run after its first
    two elements, and what follows it. *)
Fixpoint run_loop (desc : bool) (prev : A) (l : list A) : option (list A * list A) :=
  match l with
  | [] => Some ([], [])
  | x :: t =>
      match cmp x prev with
      | None => None
      | Some o =>
          if (if desc then negb (is_lt o) else is_lt o) then Some ([], l)
          else match run_loop desc x t with
               | None => None
               | Some (r, rest) => Some (x :: r, rest)
               end
      end
  end.

(** The binary search of [BinaryInsertionSort]:
    [mid = left + ((right - left) >> 1)]. *)
Fixpoint bsearch (fuel : nat) (pivot : A) (p : list A) (left right : nat) : option nat :=
  match fuel with
  | O => Some left
  | S f =>
      if Nat.ltb left right then
        let mid := (left + Nat.div2 (right - left))%nat in
        match nth_error p mid with
        | None => Some left
        | Some m =>
            match cmp pivot m with
            | None => None
            | Some Lt => bsearch f pivot p left mid
            | Some _ => bsearch f pivot p (S mid) right
            end
        end
      else Some left
  end.

Definition insert_at (k : nat) (x : A) (p : list A) : list A :=
  app (firstn k p) (x :: skipn k p).

Fixpoint binary_insertion (sorted rest : list A) : option (list A) :=
  match rest with
  | [] => Some sorted
  | x :: t =>
      match bsearch (List.length sorted) x sorted 0 (List.length sorted) with
      | None => None
      | Some k => binary_insertion (insert_at k x sorted) t
      end
  end.

Definition array_sort (l : list A) : option (list A) :=
  match l with
  | a0 :: a1 :: rest =>
      match cmp a1 a0 with
      | None => None
      | Some o =>
          let desc := is_lt o in
          match run_loop desc a1 rest with
          | None => None
          | Some (run, rest') =>
              let r := a0 :: a1 :: run in
              binary_insertion (if desc then rev r else r) rest'
          end
      end
  | _ => Some l
  end.

End ArraySort.

Arguments run_loop {A} cmp desc prev l.
Arguments bsearch {A} cmp fuel pivot p left right.
Arguments insert_at {A} k x p.
Arguments binary_insertion {A} cmp sorted rest.
Arguments array_sort {A} cmp l.

(* ------------------------------------------------------------------ *)
(** ** [render]: the query *)

(** What [render] leaves on the page: nothing and the prompt "Select a
    filter to view routine" ([Inactive]), the sorted matches with their
    count ([Shown]), or an exception thrown out of the handler. *)
Inductive outcome : Type :=
| Inactive
| Shown (l : list row)
| TypeError.

(** The result state of the spec: [inactive], [empty] or [found(n)]. *)
Inductive result_state : Type :=
| SInactive
| SEmpty
| SFound (n : nat)
| SFailed.

Definition state_of (o : outcome) : result_state :=
  match o with
  | Inactive => SInactive
  | Shown [] => SEmpty
  | Shown l => SFound (List.length l)
  | TypeError => SFailed
  end.

(** The rows rendered in the table body. *)
Definition shown_rows (o : outcome) : list row :=
  match o with
  | Shown l => l
  | _ => []
  end.

Section Query.
(** [String.prototype.localeCompare] on two strings: a locale collation,
    left abstract. *)
Variable localeCompare : string -> string -> comparison.

(** [x.localeCompare(y)]: [x] must be a string, [y] is converted by
    [ToString]; numbers and booleans have no [localeCompare] method. *)
Definition js_localeCompare (x y : jsval) : option comparison :=
  match x with
  | JStr s => Some (localeCompare s (to_string y))
  | _ => None
  end.

(** The comparator passed to [filtered.sort] in [render]. *)
Definition routine_cmp (a b : row) : option comparison :=
  if negb (jsval_eqb (Day a) (Day b))
  then Some (sub_sign (dayOrder (Day a)) (dayOrder (Day b)))
  else
    let sa := slotOrder (Time_Slot a) in
    let sb := slotOrder (Time_Slot b) in
    if negb (num_eqb sa sb) then Some (num_compare sa sb)
    else js_localeCompare (or_empty (Course_Code a)) (or_empty (Course_Code b)).

Definition render (rows : list row) (i : inputs) : outcome :=
  if negb (hasAnyFilter (currentFilters i)) then Inactive
  else
    match array_sort routine_cmp (applyFilters rows (currentFilters i)) with
    | Some l => Shown l
    | None => TypeError
    end.

End Query.

(* ------------------------------------------------------------------ *)
(** ** The option domains filled in [init] *)

Inductive field : Type := FDay | FSlot | FCourse | FTeacher | FSemsec | FRoom.

Definition get_field (fld : field) (r : row) : jsval :=
  match fld with
  | FDay => Day r
  | FSlot => Time_Slot r
  | FCourse => Course_Code r
  | FTeacher => Teacher r
  | FSemsec => Semester_Section r
  | FRoom => Room r
  end.

(** [Array.from(new Set(...))]: first occurrences, compared by
    SameValueZero (structural equality on these values). *)
Fixpoint set_from (seen : list jsval) (l : list jsval) : list jsval :=
  match l with
  | [] => []
  | x :: t =>
      if existsb (jsval_eqb x) seen then set_from seen t
      else x :: set_from (x :: seen) t
  end.

(** [uniq = arr => Array.from(new Set(arr.filter(Boolean)))] *)
Definition uniq (arr : list jsval) : list jsval := set_from [] (filter truthy arr).

(** The comparators of the six [sort] calls in [init]; the last four use
    the default order (code units of [ToString]). *)
Definition domain_cmp (fld : field) (a b : jsval) : option comparison :=
  match fld with
  | FDay => Some (sub_sign (dayOrder a) (dayOrder b))
  | FSlot => Some (num_compare (slotOrder a) (slotOrder b))
  | _ => Some (String.compare (to_string a) (to_string b))
  end.

Definition extractDomain (rows : list row) (fld : field) : option (list jsval) :=
  array_sort (domain_cmp fld) (uniq (map (get_field fld) rows)).

(* ================================================================== *)
(** * Facts about the sort *)

Section SortFacts.
Variable A : Type.
Variable cmp : A -> A -> option comparison.

(** Adjacent elements never compare "less than" in the wrong order. *)
Fixpoint loc_sorted (l : list A) : Prop :=
  match l with
  | [] => True
  | x :: t =>
      match t with
      | [] => True
      | y :: _ => cmp y x <> Some Lt
      end /\ loc_sorted t
  end.

Lemma run_loop_split : forall desc l prev r rest,
  run_loop cmp desc prev l = Some (r, rest) -> l = app r rest.
Proof.
  intros desc l; induction l as [|x t IH]; intros prev r rest H; simpl in H.
  - inversion H; reflexivity.
  - destruct (cmp x prev) as [o|]; [|discriminate].
    destruct (if desc then negb (is_lt o) else is_lt o).
    + inversion H; reflexivity.
    + destruct (run_loop cmp desc x t) as [[r' rest']|] eqn:E; [|discriminate].
      inversion H; subst. simpl. f_equal. eapply IH; eauto.
Qed.

Lemma insert_at_perm : forall k (x : A) p,
  Permutation (x :: p) (insert_at k x p).
Proof.
  intros k x p. unfold insert_at.
  rewrite <- (firstn_skipn k p) at 1.
  apply Permutation_middle.
Qed.

Lemma binary_insertion_perm : forall rest sorted out,
  binary_insertion cmp sorted rest = Some out ->
  Permutation (app sorted rest) out.
Proof.
  induction rest as [|x t IH]; intros sorted out H; simpl in H.
  - inversion H; subst. rewrite app_nil_r. apply Permutation_refl.
  - destruct (bsearch cmp _ x sorted 0 _) as [k|]; [|discriminate].
    apply IH in H.
    eapply Permutation_trans; [|exact H].
    rewrite <- Permutation_middle.
    change (x :: app sorted t) with (app (x :: sorted) t).
    apply Permutation_app_tail.
    apply insert_at_perm.
Qed.

Lemma array_sort_perm : forall l l',
  array_sort cmp l = Some l' -> Permutation l l'.
Proof.
  intros l l' H. unfold array_sort in H.
  destruct l as [|a0 [|a1 rest]]; try (inversion H; apply Permutation_refl).
  destruct (cmp a1 a0) as [o|]; [|discriminate].
  destruct (run_loop cmp (is_lt o) a1 rest) as [[run rest']|] eqn:E; [|discriminate].
  apply run_loop_split in E. subst rest.
  apply binary_insertion_perm in H.
  eapply Permutation_trans; [|exact H].
  destruct (is_lt o).
  - change (a0 :: a1 :: app run rest') with (app (a0 :: a1 :: run) rest').
    apply Permutation_app_tail. apply Permutation_rev.
  - apply Permutation_refl.
Qed.

(** Termination without exception when the comparator never throws on
    the elements at hand. *)
Section NoThrow.
Variable P : A -> Prop.
Hypothesis cmp_total : forall x y, P x -> P y -> cmp x y <> None.

Local Ltac no_throw :=
  match goal with
  | E : cmp ?a ?b = None |- _ =>
      exfalso; exact (cmp_total a b ltac:(auto) ltac:(auto) E)
  end.

Lemma run_loop_some : forall desc l prev,
  P prev -> Forall P l -> exists r rest, run_loop cmp desc prev l = Some (r, rest).
Proof.
  intros desc l; induction l as [|x t IH]; intros prev Hp Hl; simpl.
  - eauto.
  - inversion Hl; subst.
    destruct (cmp x prev) as [o|] eqn:E; [|no_throw].
    destruct (if desc then negb (is_lt o) else is_lt o); [eauto|].
    destruct (IH x) as (r & rest & ->); auto. eauto.
Qed.

Lemma bsearch_some : forall fuel x p left right,
  P x -> Forall P p -> exists k, bsearch cmp fuel x p left right = Some k.
Proof.
  induction fuel as [|f IH]; intros x p left right Hx Hp; simpl; [eauto|].
  destruct (Nat.ltb left right); [|eauto].
  destruct (nth_error p _) as [m|] eqn:Em; [|eauto].
  assert (P m) by (eapply Forall_forall; [exact Hp|]; eapply nth_error_In; eauto).
  destruct (cmp x m) as [[]|] eqn:E; try (apply IH; auto).
  no_throw.
Qed.

Lemma binary_insertion_some : forall rest sorted,
  Forall P sorted -> Forall P rest -> exists out, binary_insertion cmp sorted rest = Some out.
Proof.
  induction rest as [|x t IH]; intros sorted Hs Hr; simpl; [eauto|].
  inversion Hr; subst.
  destruct (bsearch_some (List.length sorted) x sorted 0 (List.length sorted)) as [k ->]; auto.
  apply IH; auto.
  apply Forall_forall; intros y Hy.
  apply (Permutation_in _ (Permutation_sym (insert_at_perm k x sorted))) in Hy.
  destruct Hy as [<-|Hy]; auto. rewrite Forall_forall in Hs; auto.
Qed.

Lemma array_sort_some : forall l,
  Forall P l -> exists l', array_sort cmp l = Some l'.
Proof.
  intros l Hl. unfold array_sort.
  destruct l as [|a0 [|a1 rest]]; eauto.
  inversion Hl as [|? ? H0 Hl']; subst. inversion Hl' as [|? ? H1 H2]; subst.
  destruct (cmp a1 a0) as [o|] eqn:E; [|no_throw].
  destruct (run_loop_some (is_lt o) rest a1) as (run & rest' & E'); auto.
  rewrite E'.
  pose proof (run_loop_split _ _ _ _ _ E') as ->.
  apply Forall_app in H2 as [Hrun Hrest].
  apply binary_insertion_some; auto.
  destruct (is_lt o).
  - apply Forall_rev. repeat constructor; auto.
  - repeat constructor; auto.
Qed.
End NoThrow.

End SortFacts.

Arguments loc_sorted {A} cmp l.

Section SortOrder.
Variable A : Type.
Variable cmp : A -> A -> option comparison.
Hypothesis cmp_antisym : forall x y, cmp x y = Some Lt -> cmp y x <> Some Lt.

Lemma run_loop_asc_sorted : forall l prev r rest,
  run_loop cmp false prev l = Some (r, rest) -> loc_sorted cmp (prev :: r).
Proof.
  induction l as [|x t IH]; intros prev r rest H; simpl in H.
  - inversion H; subst. simpl. auto.
  - destruct (cmp x prev) as [o|] eqn:E; [|discriminate].
    destruct (is_lt o) eqn:Ho.
    + inversion H; subst. simpl. auto.
    + destruct (run_loop cmp false x t) as [[r' rest']|] eqn:E'; [|discriminate].
      inversion H; subst.
      split; [|eapply IH; eauto].
      rewrite E. destruct o; discriminate.
Qed.

Lemma run_loop_desc_sorted : forall l prev r rest acc,
  run_loop cmp true prev l = Some (r, rest) ->
  loc_sorted cmp (prev :: acc) ->
  loc_sorted cmp (app (rev r) (prev :: acc)).
Proof.
  induction l as [|x t IH]; intros prev r rest acc H Hs; simpl in H.
  - inversion H; subst. exact Hs.
  - destruct (cmp x prev) as [o|] eqn:E; [|discriminate].
    destruct (negb (is_lt o)) eqn:Ho.
    + inversion H; subst. exact Hs.
    + destruct (run_loop cmp true x t) as [[r' rest']|] eqn:E'; [|discriminate].
      inversion H; subst. simpl. rewrite <- app_assoc. simpl.
      apply (IH x r' _ (prev :: acc) E').
      split; auto.
      apply cmp_antisym. rewrite E. destruct o; try discriminate; reflexivity.
Qed.

(** What the binary search guarantees about the insertion point [k]:
    the pivot does not compare below its left neighbour, and compares
    below its right neighbour. *)
Definition left_ok (x : A) (p : list A) (k : nat) : Prop :=
  k = 0%nat \/ exists y, nth_error p (k - 1) = Some y /\ cmp x y <> Some Lt.

Definition right_ok (x : A) (p : list A) (k : nat) : Prop :=
  k = List.length p \/ exists z, nth_error p k = Some z /\ cmp x z = Some Lt.

Lemma bsearch_spec : forall fuel x p left right k,
  bsearch cmp fuel x p left right = Some k ->
  (right - left <= fuel)%nat -> (left <= right)%nat -> (right <= List.length p)%nat ->
  left_ok x p left -> right_ok x p right ->
  left_ok x p k /\ right_ok x p k /\ (k <= List.length p)%nat.
Proof.
  induction fuel as [|f IH]; intros x p left right k H Hf Hlr Hr Hl Hrk; simpl in H.
  - inversion H; subst. assert (k = right) by lia. subst. auto.
  - destruct (Nat.ltb left right) eqn:Hlt.
    + apply Nat.ltb_lt in Hlt.
      pose proof (Nat.div2_decr (right - left) (right - left - 1) ltac:(lia)) as Hd.
      remember (left + Nat.div2 (right - left))%nat as mid eqn:Hmid_def.
      remember (Nat.div2 (right - left)) as d eqn:Ed. clear Ed.
      assert (Hmid : (mid < List.length p)%nat) by lia.
      destruct (nth_error p mid) as [m|] eqn:Em.
      2: { apply nth_error_None in Em. lia. }
      destruct (cmp x m) as [o|] eqn:Ec; [|discriminate].
      destruct o.
      * apply (IH x p (S mid) right k H); try lia; auto.
        right. exists m. simpl. rewrite Nat.sub_0_r. split; auto. rewrite Ec; discriminate.
      * apply (IH x p left mid k H); try lia; auto.
        right. exists m. auto.
      * apply (IH x p (S mid) right k H); try lia; auto.
        right. exists m. simpl. rewrite Nat.sub_0_r. split; auto. rewrite Ec; discriminate.
    + apply Nat.ltb_ge in Hlt. inversion H; subst.
      assert (k = right) by lia. subst. auto.
Qed.

Lemma insert_at_sorted : forall p k x,
  loc_sorted cmp p -> left_ok x p k -> right_ok x p k -> (k <= List.length p)%nat ->
  loc_sorted cmp (insert_at k x p).
Proof.
  induction p as [|y p IH]; intros k x Hs Hl Hr Hk.
  - simpl in Hk. assert (k = 0%nat) by lia. subst. simpl. auto.
  - destruct k as [|k].
    + simpl. split; auto.
      destruct Hr as [Hr|(z & Hz & Hc)]; [discriminate|].
      simpl in Hz. inversion Hz; subst. apply cmp_antisym; auto.
    + simpl in Hk |- *. destruct Hs as [Hyp Hs].
      destruct Hl as [Hl|(w & Hw & Hc)]; [discriminate|].
      simpl in Hw. rewrite Nat.sub_0_r in Hw.
      split.
      * destruct k as [|k].
        -- simpl. inversion Hw; subst. exact Hc.
        -- destruct p as [|y' p]; [simpl in Hk; lia|]. simpl. exact Hyp.
      * apply IH; try lia; auto.
        -- destruct k as [|k]; [left; reflexivity|].
           right. exists w. simpl in Hw |- *. rewrite Nat.sub_0_r. auto.
        -- destruct Hr as [Hr|(z & Hz & Hc')]; [left; simpl in Hr; lia|].
           right. exists z. auto.
Qed.

Lemma binary_insertion_sorted : forall rest sorted out,
  loc_sorted cmp sorted ->
  binary_insertion cmp sorted rest = Some out -> loc_sorted cmp out.
Proof.
  induction rest as [|x t IH]; intros sorted out Hs H; simpl in H.
  - inversion H; subst; auto.
  - destruct (bsearch cmp (List.length sorted) x sorted 0 (List.length sorted))
      as [k|] eqn:Eb; [|discriminate].
    apply bsearch_spec in Eb as (Hl & Hr & Hk); try lia.
    + eapply IH; [|exact H]. apply insert_at_sorted; auto.
    + left; reflexivity.
    + left; reflexivity.
Qed.

Lemma array_sort_sorted : forall l l',
  array_sort cmp l = Some l' -> loc_sorted cmp l'.
Proof.
  intros l l' H. unfold array_sort in H.
  destruct l as [|a0 [|a1 rest]]; try (inversion H; subst; simpl; auto; fail).
  destruct (cmp a1 a0) as [o|] eqn:E; [|discriminate].
  destruct (run_loop cmp (is_lt o) a1 rest) as [[run rest']|] eqn:E'; [|discriminate].
  eapply binary_insertion_sorted; [|exact H].
  destruct (is_lt o) eqn:Ho.
  - replace (rev (a0 :: a1 :: run)) with (app (rev run) [a1; a0])
      by (simpl; rewrite <- app_assoc; reflexivity).
    apply (run_loop_desc_sorted rest a1 run rest' [a0] E').
    simpl. split; auto. apply cmp_antisym. rewrite E. destruct o; try discriminate; reflexivity.
  - simpl. split; [rewrite E; destruct o; discriminate|].
    exact (run_loop_asc_sorted rest a1 run rest' E').
Qed.

End SortOrder.

(** A comparator given by a key into a total preorder sorts by that key. *)
Section KeySorted.
Variable A K : Type.
Variable key : A -> K.
Variable kcmp : K -> K -> comparison.
Variable cmp : A -> A -> option comparison.
Hypothesis cmp_key : forall x y, cmp x y = Some (kcmp (key x) (key y)).
Hypothesis kcmp_antisym : forall a b, kcmp a b = CompOpp (kcmp b a).
Hypothesis kcmp_trans_le : forall a b c,
  kcmp a b <> Gt -> kcmp b c <> Gt -> kcmp a c <> Gt.

Definition key_le (x y : A) : Prop := kcmp (key x) (key y) <> Gt.

Lemma loc_sorted_Sorted : forall l, loc_sorted cmp l -> Sorted key_le l.
Proof.
  induction l as [|x t IH]; intros Hs; [constructor|].
  destruct Hs as [Hh Hs]. constructor; auto.
  destruct t as [|y t]; constructor.
  unfold key_le. rewrite cmp_key in Hh. rewrite kcmp_antisym.
  destruct (kcmp (key y) (key x)); simpl; congruence.
Qed.

Lemma key_sorted_before : forall l1 x l2 y l3,
  loc_sorted cmp (app l1 (x :: app l2 (y :: l3))) -> key_le x y.
Proof.
  intros l1 x l2 y l3 Hs.
  apply loc_sorted_Sorted in Hs.
  apply Sorted_StronglySorted in Hs.
  2: { intros a b c Hab Hbc. exact (kcmp_trans_le _ _ _ Hab Hbc). }
  induction l1 as [|z l1 IH].
  - simpl in Hs. apply StronglySorted_inv in Hs as [_ Hall].
    rewrite Forall_forall in Hall. apply Hall. apply in_or_app. right. left. reflexivity.
  - apply IH. simpl in Hs. apply StronglySorted_inv in Hs as [Hs _]. exact Hs.
Qed.
End KeySorted.

(** Two distinct members of a list come in one order or the other. *)
Lemma in_order_or : forall (A : Type) (l : list A) (x y : A),
  In x l -> In y l -> x <> y ->
  (exists l1 l2 l3, l = app l1 (x :: app l2 (y :: l3))) \/
  (exists l1 l2 l3, l = app l1 (y :: app l2 (x :: l3))).
Proof.
  intros A l x y; induction l as [|z l IH]; intros Hx Hy Hne; [destruct Hx|].
  destruct Hx as [<-|Hx]; destruct Hy as [<-|Hy].
  - congruence.
  - apply in_split in Hy as (l2 & l3 & ->). left. exists [], l2, l3. reflexivity.
  - apply in_split in Hx as (l2 & l3 & ->). right. exists [], l2, l3. reflexivity.
  - destruct (IH Hx Hy Hne) as [(l1 & l2 & l3 & ->)|(l1 & l2 & l3 & ->)].
    + left. exists (z :: l1), l2, l3. reflexivity.
    + right. exists (z :: l1), l2, l3. reflexivity.
Qed.

(* ================================================================== *)
(** * Facts about values, domains and the query comparator *)

Lemma jsval_eqb_true : forall x y, jsval_eqb x y = true <-> x = y.
Proof.
  intros [| |a|a|a] [| |b|b|b]; simpl; split; intros H; try discriminate;
    try reflexivity; try (inversion H; fail).
  - apply Bool.eqb_prop in H. congruence.
  - inversion H. apply Bool.eqb_reflx.
  - apply Z.eqb_eq in H. congruence.
  - inversion H. apply Z.eqb_refl.
  - apply String.eqb_eq in H. congruence.
  - inversion H. apply String.eqb_refl.
Qed.

Lemma jsval_eqb_sym : forall x y, jsval_eqb x y = jsval_eqb y x.
Proof.
  intros x y. destruct (jsval_eqb x y) eqn:E; symmetry.
  - apply jsval_eqb_true in E. subst. apply jsval_eqb_true. reflexivity.
  - destruct (jsval_eqb y x) eqn:E'; auto.
    apply jsval_eqb_true in E'. subst.
    rewrite (proj2 (jsval_eqb_true x x) eq_refl) in E. discriminate.
Qed.

Lemma existsb_jsval_In : forall x seen,
  existsb (jsval_eqb x) seen = true <-> In x seen.
Proof.
  intros x seen. rewrite existsb_exists. split.
  - intros (y & Hy & E). apply jsval_eqb_true in E. subst. exact Hy.
  - intros Hx. exists x. split; auto. apply jsval_eqb_true. reflexivity.
Qed.

Lemma set_from_spec : forall l seen,
  NoDup (set_from seen l) /\
  (forall x, In x (set_from seen l) <-> In x l /\ ~ In x seen).
Proof.
  induction l as [|y t IH]; intros seen; simpl.
  - split; [constructor|]. intros x; split; [intros []|intros [[] _]].
  - destruct (existsb (jsval_eqb y) seen) eqn:E.
    + apply existsb_jsval_In in E.
      destruct (IH seen) as [Hnd Hin]. split; auto.
      intros x. rewrite Hin. split.
      * intros [Hx Hs]. auto.
      * intros [[<-|Hx] Hs]; [contradiction|auto].
    + assert (Hy : ~ In y seen) by (rewrite <- existsb_jsval_In; congruence).
      destruct (IH (y :: seen)) as [Hnd Hin]. split.
      * constructor; auto. rewrite Hin. intros [_ Hc]. apply Hc. left. reflexivity.
      * intros x. simpl. rewrite Hin. split.
        -- intros [<-|[Hx Hs]]; [auto|].
           split; auto. intros Hxs. apply Hs. right. exact Hxs.
        -- intros [[<-|Hx] Hs]; [auto|].
           destruct (jsval_eqb x y) eqn:Exy.
           ++ apply jsval_eqb_true in Exy. auto.
           ++ right. split; auto. intros [Heq|Hc]; [|contradiction].
              subst y. rewrite (proj2 (jsval_eqb_true x x) eq_refl) in Exy. discriminate.
Qed.

Lemma uniq_spec : forall arr,
  NoDup (uniq arr) /\ (forall x, In x (uniq arr) <-> In x arr /\ truthy x = true).
Proof.
  intros arr. unfold uniq. destruct (set_from_spec (filter truthy arr) []) as [Hnd Hin].
  split; auto. intros x. rewrite Hin, filter_In. simpl. tauto.
Qed.

Lemma extractDomain_spec : forall rows fld,
  exists d, extractDomain rows fld = Some d /\ NoDup d /\
  (forall v, In v d <-> truthy v = true /\ exists r, In r rows /\ get_field fld r = v).
Proof.
  intros rows fld. unfold extractDomain.
  destruct (array_sort_some jsval (domain_cmp fld) (fun _ => True))
    with (l := uniq (map (get_field fld) rows)) as [d Hd].
  - intros x y _ _. destruct fld; discriminate.
  - apply Forall_forall. auto.
  - exists d. split; auto.
    apply array_sort_perm in Hd.
    destruct (uniq_spec (map (get_field fld) rows)) as [Hnd Hin].
    split; [eapply Permutation_NoDup; eauto|].
    intros v. split.
    + intros Hv. apply (Permutation_in _ (Permutation_sym Hd)) in Hv.
      apply Hin in Hv as [Hv Ht]. apply in_map_iff in Hv. split; auto.
      destruct Hv as (r & Hr & Hrow). eauto.
    + intros [Ht (r & Hr & Hrow)]. apply (Permutation_in _ Hd).
      apply Hin. split; auto. apply in_map_iff. eauto.
Qed.

Lemma lower_char_idem : forall c, lower_char (lower_char c) = lower_char c.
Proof. intros c. destruct c as [[] [] [] [] [] [] [] []]; reflexivity. Qed.

Lemma toLowerCase_idem : forall s, toLowerCase (toLowerCase s) = toLowerCase s.
Proof. induction s as [|c s IH]; simpl; [reflexivity|]. rewrite lower_char_idem, IH. reflexivity. Qed.

(** The predicates the spec states, for a filter object [f]. *)
Definition free_text_holds (f : filters) (r : row) : Prop :=
  f_q f <> "" -> includes (toLowerCase (row_text r)) (toLowerCase (f_q f)) = true.

Definition selector_holds (sel : string) (v : jsval) : Prop :=
  sel <> "" -> v = JStr sel.

Definition active_predicates_hold (f : filters) (r : row) : Prop :=
  free_text_holds f r /\
  selector_holds (f_day f) (Day r) /\
  selector_holds (f_slot f) (Time_Slot r) /\
  selector_holds (f_course f) (Course_Code r) /\
  selector_holds (f_teacher f) (Teacher r) /\
  selector_holds (f_semsec f) (Semester_Section r) /\
  selector_holds (f_room f) (Room r).

Lemma cat_ok_spec : forall sel v, cat_ok sel v = true <-> selector_holds sel v.
Proof.
  intros sel v. unfold cat_ok, selector_holds, str_truthy.
  destruct (String.eqb sel "") eqn:E; simpl.
  - apply String.eqb_eq in E. split; [intros _ H; contradiction|auto].
  - apply String.eqb_neq in E. rewrite jsval_eqb_true. tauto.
Qed.

Lemma row_matches_lower_spec : forall f r,
  toLowerCase (f_q f) = f_q f ->
  (row_matches f r = true <-> active_predicates_hold f r).
Proof.
  intros f r Hq. unfold row_matches, active_predicates_hold, free_text_holds.
  repeat rewrite andb_true_iff. repeat rewrite cat_ok_spec.
  rewrite Hq. unfold str_truthy.
  destruct (String.eqb (f_q f) "") eqn:E; simpl.
  - apply String.eqb_eq in E. rewrite E. intuition congruence.
  - apply String.eqb_neq in E. intuition congruence.
Qed.

Lemma row_matches_spec : forall i r,
  row_matches (currentFilters i) r = true <->
  active_predicates_hold (currentFilters i) r.
Proof.
  intros i r. apply row_matches_lower_spec. simpl. apply toLowerCase_idem.
Qed.

Lemma applyFilters_spec : forall rows i r,
  In r (applyFilters rows (currentFilters i)) <->
  In r rows /\ active_predicates_hold (currentFilters i) r.
Proof.
  intros rows i r. unfold applyFilters. rewrite filter_In, row_matches_spec. tauto.
Qed.

Lemma sub_sign_antisym : forall x y, sub_sign x y = CompOpp (sub_sign y x).
Proof. intros [a|] [b|]; simpl; auto. apply Z.compare_antisym. Qed.

Lemma num_compare_antisym : forall x y, num_compare x y = CompOpp (num_compare y x).
Proof. intros [a|] [b|]; simpl; auto. apply Z.compare_antisym. Qed.

Lemma num_eqb_sym : forall x y, num_eqb x y = num_eqb y x.
Proof. intros [a|] [b|]; simpl; auto. apply Z.eqb_sym. Qed.

Lemma num_compare_trans_le : forall a b c,
  num_compare a b <> Gt -> num_compare b c <> Gt -> num_compare a c <> Gt.
Proof.
  intros [a|] [b|] [c|]; simpl; intros H1 H2; try congruence.
  change (a <= b) in H1. change (b <= c) in H2. change (a <= c). lia.
Qed.

Lemma routine_cmp_antisym : forall lc,
  (forall s t, lc s t = CompOpp (lc t s)) ->
  forall a b, routine_cmp lc a b = Some Lt -> routine_cmp lc b a <> Some Lt.
Proof.
  intros lc Hlc a b H. unfold routine_cmp in *.
  rewrite (jsval_eqb_sym (Day b) (Day a)).
  destruct (negb (jsval_eqb (Day a) (Day b))).
  - inversion H as [H']. rewrite sub_sign_antisym, H'. discriminate.
  - rewrite (num_eqb_sym (slotOrder (Time_Slot b))).
    destruct (negb (num_eqb (slotOrder (Time_Slot a)) (slotOrder (Time_Slot b)))).
    + inversion H as [H']. rewrite num_compare_antisym, H'. discriminate.
    + unfold js_localeCompare in *.
      destruct (or_empty (Course_Code a)) as [| | | |s]; try discriminate.
      destruct (or_empty (Course_Code b)) as [| | | |t]; try discriminate.
      simpl in *. inversion H as [H']. rewrite Hlc, H'. discriminate.
Qed.

(* ------------------------------------------------------------------ *)
(** ** [trim] and the free-text query *)

Fixpoint all_chars (p : ascii -> bool) (s : string) : bool :=
  match s with
  | EmptyString => true
  | String c t => p c && all_chars p t
  end.

Definition all_ws (s : string) : bool := all_chars is_ws s.

Lemma all_chars_app : forall p s t, all_chars p (s ++ t) = all_chars p s && all_chars p t.
Proof. intros p s t; induction s as [|c s IH]; simpl; [reflexivity|]. rewrite IH, andb_assoc. reflexivity. Qed.

Lemma trim_start_ws_app : forall w s, all_ws w = true -> trim_start (w ++ s) = trim_start s.
Proof.
  induction w as [|c w IH]; intros s H; simpl in *; [reflexivity|].
  apply andb_true_iff in H as [Hc Hw]. rewrite Hc. auto.
Qed.

Lemma trim_start_all_ws : forall w, all_ws w = true -> trim_start w = "".
Proof.
  induction w as [|c w IH]; intros H; simpl in *; [reflexivity|].
  apply andb_true_iff in H as [Hc Hw]. rewrite Hc. auto.
Qed.

Lemma trim_end_all_ws : forall w, all_ws w = true -> trim_end w = "".
Proof.
  induction w as [|c w IH]; intros H; simpl in *; [reflexivity|].
  apply andb_true_iff in H as [Hc Hw]. rewrite IH, Hc; auto.
Qed.

Lemma trim_end_app_ws : forall s w, all_ws w = true -> trim_end (s ++ w) = trim_end s.
Proof.
  induction s as [|c s IH]; intros w H; simpl.
  - apply trim_end_all_ws; auto.
  - rewrite IH; auto.
Qed.

Lemma trim_start_app_not_ws : forall q w,
  all_ws q = false -> trim_start (q ++ w) = trim_start q ++ w.
Proof.
  unfold all_ws. induction q as [|c q IH]; intros w H; simpl in *; [discriminate|].
  destruct (is_ws c); simpl in *; auto.
Qed.

Lemma trim_ws_pad : forall w1 q w2,
  all_ws w1 = true -> all_ws w2 = true -> trim (w1 ++ q ++ w2) = trim q.
Proof.
  intros w1 q w2 H1 H2. unfold trim.
  rewrite trim_start_ws_app by exact H1.
  destruct (all_ws q) eqn:Hq.
  - rewrite trim_start_all_ws.
    + rewrite trim_start_all_ws by exact Hq. reflexivity.
    + unfold all_ws. rewrite all_chars_app. apply andb_true_iff. auto.
  - rewrite trim_start_app_not_ws by exact Hq.
    apply trim_end_app_ws. exact H2.
Qed.

Lemma trim_all_ws : forall q, all_ws q = true -> trim q = "".
Proof. intros q H. unfold trim. rewrite trim_start_all_ws; auto. Qed.

Definition with_q (i : inputs) (q : string) : inputs :=
  {| in_q := q; in_day := in_day i; in_slot := in_slot i;
     in_course := in_course i; in_teacher := in_teacher i;
     in_semsec := in_semsec i; in_room := in_room i |}.

(* ------------------------------------------------------------------ *)
(** ** The slot regular expression *)

Definition all_digits (s : string) : bool := all_chars is_digit s.

Definition starts_digit (s : string) : bool :=
  match s with
  | EmptyString => false
  | String c _ => is_digit c
  end.

(** An occurrence of [/slot\s*(\d+)/i] at the start of [t], spelled out:
    [t] is "slot" (up to the case folding), white space, the digits [d]
    and a rest that does not continue the digits. *)
Definition slot_occurrence (t d : string) : Prop :=
  exists m w rest,
    t = m ++ w ++ d ++ rest /\ fold_string m = "slot" /\ all_ws w = true /\
    d <> "" /\ all_digits d = true /\ starts_digit rest = false.

Lemma digit_not_ws : forall c, is_digit c = true -> is_ws c = false.
Proof. intros c. destruct c as [[] [] [] [] [] [] [] []]; vm_compute; congruence. Qed.

Lemma fold_string_app : forall s t, fold_string (s ++ t) = fold_string s ++ fold_string t.
Proof. induction s as [|c s IH]; intros t; simpl; [reflexivity|]. rewrite IH. reflexivity. Qed.

Lemma fold_string_length : forall s, String.length (fold_string s) = String.length s.
Proof. induction s as [|c s IH]; simpl; auto. Qed.

Lemma starts_with_app : forall p x, starts_with (p ++ x) p = true.
Proof.
  induction p as [|c p IH]; intros x; simpl; [destruct x; reflexivity|].
  rewrite Ascii.eqb_refl. apply IH.
Qed.

Lemma drop_app : forall m x, drop (String.length m) (m ++ x) = x.
Proof. induction m as [|c m IH]; intros x; simpl; auto. Qed.

Lemma skip_ws_app : forall w x, all_ws w = true -> skip_ws (w ++ x) = skip_ws x.
Proof.
  induction w as [|c w IH]; intros x H; simpl in *; [reflexivity|].
  apply andb_true_iff in H as [Hc Hw]. rewrite Hc. auto.
Qed.

Lemma skip_ws_digit : forall x, starts_digit x = true -> skip_ws x = x.
Proof.
  intros [|c x] H; simpl in *; [reflexivity|]. rewrite digit_not_ws; auto.
Qed.

Lemma digit_run_app : forall d rest,
  all_digits d = true -> starts_digit rest = false -> digit_run (d ++ rest) = d.
Proof.
  induction d as [|c d IH]; intros rest Hd Hr; simpl in *.
  - destruct rest as [|c rest]; simpl in *; [reflexivity|]. rewrite Hr. reflexivity.
  - apply andb_true_iff in Hd as [Hc Hd]. rewrite Hc, IH; auto.
Qed.

Lemma skip_ws_split : forall s, exists w, s = w ++ skip_ws s /\ all_ws w = true.
Proof.
  induction s as [|c s IH]; simpl.
  - exists "". auto.
  - destruct (is_ws c) eqn:Hc.
    + destruct IH as (w & Hs & Hw). exists (String c w). unfold all_ws in *. simpl.
      rewrite Hc, Hw, <- Hs. auto.
    + exists "". auto.
Qed.

Lemma digit_run_split : forall x, exists rest,
  x = digit_run x ++ rest /\ all_digits (digit_run x) = true /\ starts_digit rest = false.
Proof.
  induction x as [|c x IH]; simpl.
  - exists "". auto.
  - destruct (is_digit c) eqn:Hc.
    + destruct IH as (rest & Hx & Hd & Hr). exists rest. unfold all_digits in *. simpl.
      rewrite Hc, Hd, <- Hx. auto.
    + exists (String c x). simpl. auto.
Qed.

Lemma slot_match_here_occurrence : forall t d,
  slot_occurrence t d -> slot_match_here t = Some d.
Proof.
  intros t d (m & w & rest & -> & Hm & Hw & Hne & Hd & Hr).
  unfold slot_match_here.
  rewrite fold_string_app, Hm, starts_with_app.
  assert (Hlen : String.length m = 4%nat)
    by (rewrite <- fold_string_length, Hm; reflexivity).
  rewrite <- Hlen, drop_app, skip_ws_app by exact Hw.
  assert (Hsd : starts_digit (d ++ rest) = true).
  { destruct d as [|c d']; [contradiction|]. simpl in *.
    apply andb_true_iff in Hd as [Hc _]. exact Hc. }
  rewrite skip_ws_digit by exact Hsd.
  rewrite digit_run_app by assumption.
  destruct (String.eqb d "") eqn:E; [apply String.eqb_eq in E; contradiction|].
  reflexivity.
Qed.

Lemma starts_with_prefix : forall p s, starts_with s p = true -> exists x, s = p ++ x.
Proof.
  induction p as [|c p IH]; intros s H; [exists s; reflexivity|].
  destruct s as [|c' s]; simpl in H; [discriminate|].
  apply andb_true_iff in H as [Hc H]. apply Ascii.eqb_eq in Hc. subst c'.
  destruct (IH s H) as [x ->]. exists x. reflexivity.
Qed.

Lemma fold_string_split : forall a t x, fold_string t = a ++ x ->
  exists m y, t = m ++ y /\ fold_string m = a /\ String.length m = String.length a.
Proof.
  induction a as [|c a IH]; intros t x H.
  - exists "", t. auto.
  - destruct t as [|c' t]; simpl in H; [discriminate|].
    injection H as Hc H. destruct (IH t x H) as (m & y & -> & Hm & Hl).
    exists (String c' m), y. simpl. rewrite Hc, Hm, Hl. auto.
Qed.

Lemma slot_match_here_sound : forall t d,
  slot_match_here t = Some d -> slot_occurrence t d.
Proof.
  intros t d H. unfold slot_match_here in H.
  destruct (starts_with (fold_string t) "slot") eqn:Es; [|discriminate].
  destruct (starts_with_prefix _ _ Es) as [x Hx].
  destruct (fold_string_split _ _ _ Hx) as (m & t' & -> & Hm & Hl).
  change 4%nat with (String.length "slot") in H. rewrite <- Hl, drop_app in H.
  destruct (skip_ws_split t') as (w & Ht & Hw).
  destruct (digit_run_split (skip_ws t')) as (rest & Hd0 & Hd & Hr).
  destruct (String.eqb (digit_run (skip_ws t')) "") eqn:Ee; [discriminate|].
  injection H as Hdr. rewrite Hdr in *.
  exists m, w, rest. repeat split; auto.
  - rewrite Ht at 1. rewrite Hd0 at 1. reflexivity.
  - apply String.eqb_neq. exact Ee.
Qed.

Lemma slot_exec_first : forall pre t d,
  slot_occurrence t d ->
  (forall j d', (j < String.length pre)%nat -> ~ slot_occurrence (drop j (pre ++ t)) d') ->
  slot_exec (pre ++ t) = Some d.
Proof.
  induction pre as [|c pre IH]; intros t d Hocc Hfirst; simpl.
  - destruct t as [|c t'].
    + destruct Hocc as (m & w & rest & Ht & Hm & _).
      assert (Hlen : String.length m = 4%nat)
        by (rewrite <- fold_string_length, Hm; reflexivity).
      destruct m; simpl in Ht, Hlen; discriminate.
    + simpl. rewrite (slot_match_here_occurrence _ _ Hocc). reflexivity.
  - destruct (slot_match_here (String c (pre ++ t))) as [d'|] eqn:E.
    + exfalso. apply (Hfirst 0%nat d'); [simpl; lia|].
      apply slot_match_here_sound. exact E.
    + apply IH; auto. intros j d' Hj. apply (Hfirst (S j) d'). simpl. lia.
Qed.

(* ------------------------------------------------------------------ *)
(** ** Shared facts for the properties below *)

Lemma render_shown : forall lc rows i l,
  render lc rows i = Shown l ->
  hasAnyFilter (currentFilters i) = true /\
  array_sort (routine_cmp lc) (applyFilters rows (currentFilters i)) = Some l.
Proof.
  intros lc rows i l H. unfold render in H.
  destruct (hasAnyFilter (currentFilters i)); simpl in H; [|discriminate].
  destruct (array_sort _ _) as [l'|]; inversion H; auto.
Qed.

Lemma render_inactive : forall lc rows i,
  hasAnyFilter (currentFilters i) = false -> render lc rows i = Inactive.
Proof. intros lc rows i H. unfold render. rewrite H. reflexivity. Qed.

Lemma domain_cmp_slot_key : forall x y,
  domain_cmp FSlot x y = Some (num_compare (slotOrder x) (slotOrder y)).
Proof. reflexivity. Qed.

Lemma domain_slot_sorted : forall rows d,
  extractDomain rows FSlot = Some d -> loc_sorted (domain_cmp FSlot) d.
Proof.
  intros rows d H. eapply array_sort_sorted; [|exact H].
  intros x y Hxy. rewrite domain_cmp_slot_key in *.
  inversion Hxy as [Hxy']. rewrite num_compare_antisym, Hxy'. discriminate.
Qed.

(** In the Time-Slot domain a value of smaller rank comes first. *)
Lemma domain_slot_before : forall rows d x y,
  extractDomain rows FSlot = Some d -> In x d -> In y d ->
  num_compare (slotOrder x) (slotOrder y) = Lt ->
  exists l1 l2 l3, d = app l1 (x :: app l2 (y :: l3)).
Proof.
  intros rows d x y Hd Hx Hy Hlt.
  assert (Hne : x <> y) by (intros ->; destruct (slotOrder y) as [z|]; simpl in Hlt;
    [rewrite Z.compare_refl in Hlt|]; discriminate).
  destruct (in_order_or _ d x y Hx Hy Hne) as [Hord|(l1 & l2 & l3 & Hd')]; [exact Hord|].
  exfalso. apply domain_slot_sorted in Hd. rewrite Hd' in Hd.
  apply (key_sorted_before jsval num slotOrder num_compare (domain_cmp FSlot)
           domain_cmp_slot_key num_compare_antisym num_compare_trans_le) in Hd.
  unfold key_le in Hd. rewrite num_compare_antisym, Hlt in Hd. apply Hd. reflexivity.
Qed.

Lemma filter_Forall : forall (A : Type) (f : A -> bool) (P : A -> Prop) l,
  Forall P l -> Forall P (filter f l).
Proof.
  intros A f P l H. rewrite Forall_forall in *. intros x Hx.
  apply filter_In in Hx as [Hx _]. auto.
Qed.

Lemma slot_exec_rank : forall s d, slot_exec s = Some d ->
  slotOrder (JStr s) = Number_of_digits d /\
  (digits_value d < 2 ^ 53 -> slotOrder (JStr s) = NFin (digits_value d)).
Proof.
  intros s d H.
  assert (Hs : slotOrder (JStr s) = Number_of_digits d).
  { unfold slotOrder, or_empty. simpl truthy.
    destruct (String.eqb s "") eqn:E; simpl.
    - apply String.eqb_eq in E. subst s. discriminate.
    - rewrite H. reflexivity. }
  split; auto. intros Hlt. rewrite Hs. unfold Number_of_digits, round_double.
  apply Z.ltb_lt in Hlt. rewrite Hlt. reflexivity.
Qed.

Lemma no_occurrence_here : forall s d, slot_match_here s = None -> ~ slot_occurrence s d.
Proof.
  intros s d H Hocc. apply slot_match_here_occurrence in Hocc. congruence.
Qed.

(* ------------------------------------------------------------------ *)
(** ** Concrete rows and inputs *)

Definition no_input : inputs := mkInputs "" "" "" "" "" "" "".

Definition ex_row_mon : row :=
  mkRow (JStr "Monday") (JStr "Slot 1") (JStr "CSE101") (JStr "Dr. A")
        (JStr "1-A") (JStr "101").
Definition ex_row_sun : row :=
  mkRow (JStr "Sunday") (JStr "Slot 2") (JStr "MAT201") (JStr "Dr. B")
        (JStr "2-B") (JStr "204").
Definition ex_row_wed : row :=
  mkRow (JStr "Wednesday") (JStr "Slot 1") (JStr "PHY101") (JStr "Dr. C")
        (JStr "1-A") (JStr "101").

Definition c2_row_funday : row :=
  mkRow (JStr "Funday") (JStr "Slot 2") (JStr "X") JUndefined JUndefined JUndefined.
Definition c2_row_xday : row :=
  mkRow (JStr "Xday") (JStr "Slot 1") (JStr "X") JUndefined JUndefined JUndefined.
Definition c2_inputs : inputs := mkInputs "" "" "" "X" "" "" "".

Definition room_row (v : jsval) : row :=
  mkRow (JStr "Monday") (JStr "Slot 1") (JStr "CSE101") JUndefined JUndefined v.

Definition slot_row (day slot : string) : row :=
  mkRow (JStr day) (JStr slot) (JStr "CSE101") JUndefined JUndefined JUndefined.

Definition course_row (c : jsval) : row :=
  mkRow (JStr "Monday") (JStr "Slot 1") c JUndefined JUndefined JUndefined.

Definition monday_inputs : inputs := mkInputs "" "Monday" "" "" "" "" "".


(* ------------------------------------------------------------------ *)
(** ** [escapeHtml] and the markup written by [render] *)

Definition dq : string := String "034"%char "".
Definition nl : string := String "010"%char "".

(** [String(str ?? "")] *)
Definition nullish_string (v : jsval) : string :=
  match v with
  | JUndefined | JNull => ""
  | _ => to_string v
  end.

(** [s.replaceAll(c, rep)] for a pattern [c] of one character: every
    occurrence, left to right; the replacements used here hold no [$]. *)
Fixpoint replace_char (c : ascii) (rep s : string) : string :=
  match s with
  | EmptyString => EmptyString
  | String x t =>
      if Ascii.eqb x c then rep ++ replace_char c rep t
      else String x (replace_char c rep t)
  end.

(** The [replaceAll] chain of [escapeHtml], in its order. *)
Definition escape_steps (s : string) : string :=
  replace_char "'"%char "&#039;"
    (replace_char "034"%char "&quot;"
      (replace_char ">"%char "&gt;"
        (replace_char "<"%char "&lt;"
          (replace_char "&"%char "&amp;" s)))).

Definition escapeHtml (v : jsval) : string := escape_steps (nullish_string v).

(** A decoder of the five entities [escapeHtml] writes, to state that
    escaping loses nothing. *)
Fixpoint html_unescape (s : string) : string :=
  match s with
  | String "&"%char (String "a"%char (String "m"%char (String "p"%char
      (String ";"%char t)))) => String "&"%char (html_unescape t)
  | String "&"%char (String "l"%char (String "t"%char (String ";"%char t))) =>
      String "<"%char (html_unescape t)
  | String "&"%char (String "g"%char (String "t"%char (String ";"%char t))) =>
      String ">"%char (html_unescape t)
  | String "&"%char (String "q"%char (String "u"%char (String "o"%char
      (String "t"%char (String ";"%char t))))) => String "034"%char (html_unescape t)
  | String "&"%char (String "#"%char (String "0"%char (String "3"%char
      (String "9"%char (String ";"%char t))))) => String "'"%char (html_unescape t)
  | String c t => String c (html_unescape t)
  | EmptyString => EmptyString
  end.

(** The characters [escapeHtml] replaces. *)
Definition html_special (c : ascii) : bool :=
  Ascii.eqb c "&"%char || Ascii.eqb c "<"%char || Ascii.eqb c ">"%char
  || Ascii.eqb c "034"%char || Ascii.eqb c "'"%char.

Fixpoint count_char (c : ascii) (s : string) : nat :=
  match s with
  | EmptyString => O
  | String x t => if Ascii.eqb x c then S (count_char c t) else count_char c t
  end.

(** The template of one table row in [render]. *)
Definition row_html (r : row) : string :=
  nl ++ "    <tr>" ++ nl ++
  "      <td><span class=" ++ dq ++ "badge" ++ dq ++ ">" ++ escapeHtml (Day r) ++
  "</span></td>" ++ nl ++
  "      <td>" ++ escapeHtml (Time_Slot r) ++ "</td>" ++ nl ++
  "      <td><span class=" ++ dq ++ "badge" ++ dq ++ ">" ++ escapeHtml (Course_Code r) ++
  "</span></td>" ++ nl ++
  "      <td>" ++ escapeHtml (Teacher r) ++ "</td>" ++ nl ++
  "      <td>" ++ escapeHtml (Semester_Section r) ++ "</td>" ++ nl ++
  "      <td>" ++ escapeHtml (Room r) ++ "</td>" ++ nl ++
  "    </tr>" ++ nl ++ "  ".

Definition no_match_html : string :=
  "<tr><td colspan=" ++ dq ++ "6" ++ dq ++ " class=" ++ dq ++ "muted" ++ dq ++
  ">No matches. Try another filter.</td></tr>".

Definition prompt_text : string := "Select a filter to view routine".

(** What the page shows: [els.tbody.innerHTML] and [els.count.textContent]. *)
Record page : Type := mkPage {
  tbody_html : string;
  count_text : string
}.

(** The page after [render]: an exception thrown by the sort leaves it as
    it was. *)
Definition render_page (p : page) (o : outcome) : page :=
  match o with
  | Inactive => mkPage "" prompt_text
  | TypeError => p
  | Shown l =>
      let c := number_to_string (Z.of_nat (List.length l)) ++ " class(es) found" in
      match l with
      | [] => mkPage no_match_html c
      | _ => mkPage (String.concat "" (map row_html l)) c
      end
  end.

(* ------------------------------------------------------------------ *)
(** ** [fillSelect] *)

(** The options of [el] after [fillSelect(el, values, label)], as
    (text, value) pairs: [new Option(label, "")], then [new Option(v, v)]. *)
Definition fillSelect (values : list jsval) (label : string) : list (string * string) :=
  (label, "") :: map (fun v => (to_string v, to_string v)) values.

(** The inputs when only the select of [fld] has the value [s]. *)
Definition select_input (fld : field) (s : string) : inputs :=
  match fld with
  | FDay => mkInputs "" s "" "" "" "" ""
  | FSlot => mkInputs "" "" s "" "" "" ""
  | FCourse => mkInputs "" "" "" s "" "" ""
  | FTeacher => mkInputs "" "" "" "" s "" ""
  | FSemsec => mkInputs "" "" "" "" "" s ""
  | FRoom => mkInputs "" "" "" "" "" "" s
  end.

(** The rank of a Day: its [DAY_ORDER] entry, 99 for other values. *)
Definition day_rank (v : jsval) : Z :=
  match dayOrder v with Some n => n | None => 0 end.

(** The order of the first two keys of the query comparator. *)
Definition week_slot_le (a b : row) : Prop :=
  day_rank (Day a) < day_rank (Day b) \/
  (day_rank (Day a) = day_rank (Day b) /\
   num_compare (slotOrder (Time_Slot a)) (slotOrder (Time_Slot b)) <> Gt).

(** A row whose Day is one of the seven names of [DAY_ORDER]. *)
Definition weekday_row (r : row) : Prop :=
  exists d, Day r = JStr d /\ In d (map fst DAY_ORDER).

(** Distinct Day values of [rows] have distinct numeric [dayOrder] ranks,
    so the first key of the query comparator never ties two rows whose
    Day values differ (the tie of two unknown days is the defect shown for
    C2). *)
Definition day_ranks_distinct (rows : list row) : Prop :=
  forall a b, In a rows -> In b rows -> Day a <> Day b ->
  exists n m, dayOrder (Day a) = Some n /\ dayOrder (Day b) = Some m /\ n <> m.

Definition day_ranks_distinctb (rows : list row) : bool :=
  forallb (fun a => forallb (fun b =>
    jsval_eqb (Day a) (Day b) ||
    match dayOrder (Day a), dayOrder (Day b) with
    | Some n, Some m => negb (Z.eqb n m)
    | _, _ => false
    end) rows) rows.

Definition c5_inputs : inputs := mkInputs "" "" "" "CSE101" "" "" "".

(* ------------------------------------------------------------------ *)
(** ** The sort against an order of keys

    When a comparator answers "less" only for pairs in the order [R] and
    anything else only for pairs in the reverse order, the sort returns a
    list in the order [R], whatever it answers on ties. *)

Lemma insert_at_Forall : forall (A : Type) (P : A -> Prop) k x p,
  P x -> Forall P p -> Forall P (insert_at k x p).
Proof.
  intros A P k x p Hx Hp. apply Forall_forall. intros y Hy.
  apply (Permutation_in _ (Permutation_sym (insert_at_perm A k x p))) in Hy.
  destruct Hy as [<-|Hy]; auto. rewrite Forall_forall in Hp. auto.
Qed.

Section SortRel.
Variable A : Type.
Variable cmp : A -> A -> option comparison.
Variable P : A -> Prop.
Variable R : A -> A -> Prop.
Hypothesis cmp_lt_R : forall x y, P x -> P y -> cmp x y = Some Lt -> R x y.
Hypothesis cmp_nlt_R : forall x y, P x -> P y -> cmp x y <> Some Lt -> R y x.

Lemma run_loop_asc_rel : forall l prev r rest,
  P prev -> Forall P l ->
  run_loop cmp false prev l = Some (r, rest) -> Sorted R (prev :: r).
Proof.
  induction l as [|x t IH]; intros prev r rest Hp Hl H; simpl in H.
  - inversion H; subst. repeat constructor.
  - inversion Hl as [|? ? Hx Ht]; subst.
    destruct (cmp x prev) as [o|] eqn:E; [|discriminate].
    destruct (is_lt o) eqn:Ho.
    + inversion H; subst. repeat constructor.
    + destruct (run_loop cmp false x t) as [[r' rest']|] eqn:E'; [|discriminate].
      inversion H; subst.
      constructor; [eapply IH; eauto|].
      constructor. apply cmp_nlt_R; auto.
      rewrite E. intros Hc. injection Hc as ->. discriminate Ho.
Qed.

Lemma run_loop_desc_rel : forall l prev r rest acc,
  P prev -> Forall P l ->
  run_loop cmp true prev l = Some (r, rest) ->
  Sorted R (prev :: acc) -> Sorted R (app (rev r) (prev :: acc)).
Proof.
  induction l as [|x t IH]; intros prev r rest acc Hp Hl H Hs; simpl in H.
  - inversion H; subst. exact Hs.
  - inversion Hl as [|? ? Hx Ht]; subst.
    destruct (cmp x prev) as [o|] eqn:E; [|discriminate].
    destruct (negb (is_lt o)) eqn:Ho.
    + inversion H; subst. exact Hs.
    + destruct (run_loop cmp true x t) as [[r' rest']|] eqn:E'; [|discriminate].
      inversion H; subst. simpl. rewrite <- app_assoc. simpl.
      apply (IH x r' rest (prev :: acc)); auto.
      constructor; auto. constructor. apply cmp_lt_R; auto.
      rewrite E. destruct o; simpl in Ho; congruence.
Qed.

Lemma insert_at_rel : forall p k x,
  P x -> Forall P p -> Sorted R p ->
  left_ok A cmp x p k -> right_ok A cmp x p k -> (k <= List.length p)%nat ->
  Sorted R (insert_at k x p).
Proof.
  induction p as [|y p IH]; intros k x Hx Hp Hs Hl Hr Hk.
  - simpl in Hk. assert (k = 0%nat) by lia. subst. simpl. repeat constructor.
  - inversion Hp as [|? ? Hy Hp']; subst.
    destruct k as [|k].
    + simpl. constructor; [exact Hs|]. constructor.
      destruct Hr as [Hr|(z & Hz & Hc)]; [discriminate|].
      simpl in Hz. inversion Hz; subst. apply cmp_lt_R; auto.
    + simpl in Hk. change (insert_at (S k) x (y :: p)) with (y :: insert_at k x p).
      apply Sorted_inv in Hs as [Hs Hhd].
      destruct Hl as [Hl|(w & Hw & Hc)]; [discriminate|].
      simpl in Hw. rewrite Nat.sub_0_r in Hw.
      constructor.
      * apply IH; auto; try lia.
        -- destruct k as [|k]; [left; reflexivity|].
           right. exists w. simpl in Hw |- *. rewrite Nat.sub_0_r. auto.
        -- destruct Hr as [Hr|(z & Hz & Hc')]; [left; simpl in Hr; lia|].
           right. exists z. auto.
      * destruct k as [|k].
        -- simpl. constructor. simpl in Hw. inversion Hw; subst. apply cmp_nlt_R; auto.
        -- destruct p as [|y' p]; [simpl in Hk; lia|]. simpl.
           constructor. inversion Hhd; auto.
Qed.

Lemma binary_insertion_rel : forall rest sorted out,
  Forall P sorted -> Forall P rest -> Sorted R sorted ->
  binary_insertion cmp sorted rest = Some out -> Sorted R out.
Proof.
  induction rest as [|x t IH]; intros sorted out Hps Hpr Hs H; simpl in H.
  - inversion H; subst; auto.
  - inversion Hpr as [|? ? Hx Ht]; subst.
    destruct (bsearch cmp (List.length sorted) x sorted 0 (List.length sorted))
      as [k|] eqn:Eb; [|discriminate].
    apply bsearch_spec in Eb as (Hl & Hr & Hk); try lia.
    + apply (IH (insert_at k x sorted) out); auto.
      * apply insert_at_Forall; auto.
      * apply insert_at_rel; auto.
    + left; reflexivity.
    + left; reflexivity.
Qed.

Lemma array_sort_rel : forall l l',
  Forall P l -> array_sort cmp l = Some l' -> Sorted R l'.
Proof.
  intros l l' Hl H. unfold array_sort in H.
  destruct l as [|a0 [|a1 rest]]; try (inversion H; subst; repeat constructor; fail).
  inversion Hl as [|? ? H0 Hl']; subst. inversion Hl' as [|? ? H1 H2]; subst.
  destruct (cmp a1 a0) as [o|] eqn:E; [|discriminate].
  destruct (run_loop cmp (is_lt o) a1 rest) as [[run rest']|] eqn:E'; [|discriminate].
  pose proof (run_loop_split A cmp _ _ _ _ _ E') as Hsplit.
  pose proof H2 as H2'. rewrite Hsplit in H2'.
  apply Forall_app in H2' as [Hrun Hrest].
  apply (binary_insertion_rel rest' (if is_lt o then rev (a0 :: a1 :: run) else a0 :: a1 :: run));
    auto.
  - destruct (is_lt o); [apply Forall_rev|]; repeat constructor; auto.
  - destruct (is_lt o) eqn:Ho.
    + replace (rev (a0 :: a1 :: run)) with (app (rev run) [a1; a0])
        by (simpl; rewrite <- app_assoc; reflexivity).
      apply (run_loop_desc_rel rest a1 run rest' [a0]); auto.
      constructor; [repeat constructor|]. constructor. apply cmp_lt_R; auto.
      rewrite E. destruct o; simpl in Ho; congruence.
    + constructor; [apply (run_loop_asc_rel rest a1 run rest'); auto|].
      constructor. apply cmp_nlt_R; auto.
      rewrite E. intros Hc. injection Hc as ->. discriminate Ho.
Qed.

End SortRel.

Lemma strongly_sorted_before : forall (A : Type) (R : A -> A -> Prop) l1 x l2 y l3,
  StronglySorted R (app l1 (x :: app l2 (y :: l3))) -> R x y.
Proof.
  intros A R l1 x l2 y l3 Hs. induction l1 as [|z l1 IH].
  - simpl in Hs. apply StronglySorted_inv in Hs as [_ Hall].
    rewrite Forall_forall in Hall. apply Hall. apply in_or_app. right. left. reflexivity.
  - apply IH. simpl in Hs. apply StronglySorted_inv in Hs as [Hs _]. exact Hs.
Qed.

(* ------------------------------------------------------------------ *)
(** ** The query result by day and slot rank *)

Lemma day_ranks_distinctb_spec : forall rows,
  day_ranks_distinctb rows = true -> day_ranks_distinct rows.
Proof.
  intros rows H a b Ha Hb Hne. unfold day_ranks_distinctb in H.
  rewrite forallb_forall in H. specialize (H a Ha). rewrite forallb_forall in H.
  specialize (H b Hb). apply orb_true_iff in H as [H|H].
  - apply jsval_eqb_true in H. contradiction.
  - destruct (dayOrder (Day a)) as [n|]; [|discriminate].
    destruct (dayOrder (Day b)) as [m|]; [|discriminate].
    apply negb_true_iff, Z.eqb_neq in H. eauto.
Qed.

Lemma week_slot_le_trans : forall a b c, week_slot_le a b -> week_slot_le b c -> week_slot_le a c.
Proof.
  unfold week_slot_le. intros a b c [H1|[E1 H1]] [H2|[E2 H2]].
  - left. lia.
  - left. lia.
  - left. lia.
  - right. split; [lia|]. eapply num_compare_trans_le; eauto.
Qed.

Lemma num_eqb_compare : forall x y, num_eqb x y = true -> num_compare x y = Eq.
Proof. intros [a|] [b|]; simpl; try discriminate; auto. intros H. apply Z.eqb_eq in H. subst. apply Z.compare_refl. Qed.

Lemma routine_cmp_week_slot : forall lc rows x y,
  day_ranks_distinct rows -> In x rows -> In y rows ->
  (routine_cmp lc x y = Some Lt -> week_slot_le x y) /\
  (routine_cmp lc x y <> Some Lt -> week_slot_le y x).
Proof.
  intros lc rows x y Hd Hx Hy. unfold routine_cmp, week_slot_le.
  destruct (jsval_eqb (Day x) (Day y)) eqn:E; simpl.
  - apply jsval_eqb_true in E. rewrite E.
    destruct (num_eqb (slotOrder (Time_Slot x)) (slotOrder (Time_Slot y))) eqn:En; simpl.
    + pose proof (num_eqb_compare _ _ En) as Hc.
      rewrite num_eqb_sym in En. pose proof (num_eqb_compare _ _ En) as Hc'.
      split; intros _; right; split; auto; congruence.
    + split; intros H.
      * right. split; auto. inversion H as [H']. rewrite H'. discriminate.
      * right. split; auto. rewrite num_compare_antisym.
        destruct (num_compare (slotOrder (Time_Slot x)) (slotOrder (Time_Slot y)));
          simpl; congruence.
  - assert (Hne : Day x <> Day y) by (intros Heq; rewrite Heq, (proj2 (jsval_eqb_true _ _) eq_refl) in E; discriminate).
    destruct (Hd x y Hx Hy Hne) as (n & m & Dx & Dy & Hnm).
    unfold day_rank. rewrite Dx, Dy. simpl.
    split; intros H.
    + left. inversion H as [H']. apply Z.compare_lt_iff. exact H'.
    + left. destruct (Z.compare_spec n m); subst; try congruence; lia.
Qed.

(** When distinct Day values have distinct ranks, the shown rows are in
    the order of the first two keys, for every [localeCompare]. *)
Lemma render_week_slot_sorted : forall lc rows i l,
  day_ranks_distinct rows -> render lc rows i = Shown l -> StronglySorted week_slot_le l.
Proof.
  intros lc rows i l Hd H. apply render_shown in H as [_ Hs].
  apply Sorted_StronglySorted; [exact week_slot_le_trans|].
  apply (array_sort_rel row (routine_cmp lc) (fun x => In x rows) week_slot_le)
    with (l := applyFilters rows (currentFilters i)); auto.
  - intros x y Hx Hy. apply (routine_cmp_week_slot lc rows x y Hd Hx Hy).
  - intros x y Hx Hy. apply (routine_cmp_week_slot lc rows x y Hd Hx Hy).
  - apply Forall_forall. intros x Hx. unfold applyFilters in Hx.
    apply filter_In in Hx as [Hx _]. exact Hx.
Qed.

(** Of two shown rows of the same Day, the one of smaller slot rank comes
    first. *)
Lemma render_slot_before : forall lc rows i l a b,
  day_ranks_distinct rows -> render lc rows i = Shown l -> Day a = Day b ->
  num_compare (slotOrder (Time_Slot a)) (slotOrder (Time_Slot b)) = Lt ->
  (forall l1 l2 l3, l <> app l1 (b :: app l2 (a :: l3))) /\
  (In a l -> In b l -> exists l1 l2 l3, l = app l1 (a :: app l2 (b :: l3))).
Proof.
  intros lc rows i l a b Hd H Hday Hlt.
  pose proof (render_week_slot_sorted lc rows i l Hd H) as Hs.
  assert (Hnot : forall l1 l2 l3, l <> app l1 (b :: app l2 (a :: l3))).
  { intros l1 l2 l3 Heq. rewrite Heq in Hs.
    apply strongly_sorted_before in Hs. unfold week_slot_le in Hs.
    rewrite Hday in Hs. destruct Hs as [Hs|[_ Hs]]; [lia|].
    rewrite num_compare_antisym, Hlt in Hs. apply Hs. reflexivity. }
  split; [exact Hnot|]. intros Ha Hb.
  assert (Hne : a <> b).
  { intros ->. destruct (slotOrder (Time_Slot b)) as [z|]; simpl in Hlt;
      [rewrite Z.compare_refl in Hlt|]; discriminate. }
  destruct (in_order_or _ l a b Ha Hb Hne) as [Hord|(l1 & l2 & l3 & Heq)]; [exact Hord|].
  exfalso. exact (Hnot l1 l2 l3 Heq).
Qed.

(** [slot_exec] returns only occurrences of the pattern. *)
Lemma slot_exec_sound : forall s d, slot_exec s = Some d ->
  exists j, slot_occurrence (drop j s) d.
Proof.
  induction s as [|c t IH]; intros d H; simpl in H; [discriminate|].
  destruct (slot_match_here (String c t)) as [d'|] eqn:E.
  - injection H as <-. exists 0%nat. apply slot_match_here_sound. exact E.
  - destruct (IH d H) as [j Hj]. exists (S j). exact Hj.
Qed.

(* ================================================================== *)
(** * The properties of the specification *)

(** C1: with at least one predicate set, the shown rows are exactly the
    input rows for which every active predicate holds (free text: the
    lowercased query is a substring of the lowercased space-joined six
    fields, absent fields joined as ""; selectors: exact string equality),
    each as often as in the input; so they are a subset of the input. *)
Theorem query_rows_match_predicates : forall lc rows i l,
  render lc rows i = Shown l ->
  hasAnyFilter (currentFilters i) = true /\
  Permutation l (applyFilters rows (currentFilters i)) /\
  (forall r, In r l <-> In r rows /\ active_predicates_hold (currentFilters i) r) /\
  incl l rows.
Proof.
  intros lc rows i l H. apply render_shown in H as [Hany Hs].
  apply array_sort_perm in Hs. apply Permutation_sym in Hs.
  assert (Hin : forall r, In r l <-> In r rows /\ active_predicates_hold (currentFilters i) r).
  { intros r. rewrite <- applyFilters_spec. split; apply Permutation_in; auto.
    apply Permutation_sym; auto. }
  split; [exact Hany|]. split; [exact Hs|]. split; [exact Hin|].
  intros x Hx. apply Hin in Hx as [Hx _]. exact Hx.
Qed.

Lemma query_rows_match_predicates_witness :
  render String.compare [ex_row_mon; ex_row_sun; ex_row_wed]
    (mkInputs "  dr. a " "" "" "" "" "" "") = Shown [ex_row_mon] /\
  (hasAnyFilter (currentFilters (mkInputs "  dr. a " "" "" "" "" "" "")) = true /\
   Permutation [ex_row_mon]
     (applyFilters [ex_row_mon; ex_row_sun; ex_row_wed]
        (currentFilters (mkInputs "  dr. a " "" "" "" "" "" ""))) /\
   (forall r, In r [ex_row_mon] <-> In r [ex_row_mon; ex_row_sun; ex_row_wed] /\
      active_predicates_hold (currentFilters (mkInputs "  dr. a " "" "" "" "" "" "")) r) /\
   incl [ex_row_mon] [ex_row_mon; ex_row_sun; ex_row_wed]).
Proof.
  split; [vm_compute; reflexivity|].
  apply (query_rows_match_predicates String.compare); vm_compute; reflexivity.
Defined.

(** C2: the composite sort key is not followed for two distinct Day
    values outside [DAY_ORDER]: [dayOrder] gives both 99, the comparator
    returns 0 and never looks at the Time Slot, so a "Slot 2" row stays
    before a "Slot 1" row (for every [localeCompare]; the comparator is
    consistent on these rows, so every conforming sort gives this order). *)
Theorem unknown_days_skip_slot_key : forall lc,
  render lc [c2_row_funday; c2_row_xday] c2_inputs = Shown [c2_row_funday; c2_row_xday] /\
  routine_cmp lc c2_row_funday c2_row_xday = Some Eq /\
  routine_cmp lc c2_row_xday c2_row_funday = Some Eq /\
  dayOrder (Day c2_row_funday) = Some 99 /\ dayOrder (Day c2_row_xday) = Some 99 /\
  slotOrder (Time_Slot c2_row_xday) = NFin 1 /\ slotOrder (Time_Slot c2_row_funday) = NFin 2.
Proof. intros lc. vm_compute. repeat split. Qed.

(** C3: with all seven predicates unset, the query shows nothing and its
    state is [inactive], whatever the rows. *)
Theorem no_filter_inactive : forall lc rows i,
  f_q (currentFilters i) = "" -> f_day (currentFilters i) = "" ->
  f_slot (currentFilters i) = "" -> f_course (currentFilters i) = "" ->
  f_teacher (currentFilters i) = "" -> f_semsec (currentFilters i) = "" ->
  f_room (currentFilters i) = "" ->
  render lc rows i = Inactive /\ state_of (render lc rows i) = SInactive /\
  shown_rows (render lc rows i) = [].
Proof.
  intros lc rows i H1 H2 H3 H4 H5 H6 H7.
  assert (Hf : hasAnyFilter (currentFilters i) = false).
  { unfold hasAnyFilter. rewrite H1, H2, H3, H4, H5, H6, H7. reflexivity. }
  rewrite render_inactive by exact Hf. auto.
Qed.

Lemma no_filter_inactive_witness :
  render String.compare [ex_row_mon; ex_row_sun] no_input = Inactive /\
  state_of (render String.compare [ex_row_mon; ex_row_sun] no_input) = SInactive /\
  shown_rows (render String.compare [ex_row_mon; ex_row_sun] no_input) = [].
Proof. apply no_filter_inactive; reflexivity. Defined.

(** C4 (amended): the domain of a field is exactly the distinct truthy
    values of that field in the rows ([filter(Boolean)]: for strings the
    non-empty ones; [0], [false], [null] and absent values are left out),
    without duplicates; e.g. the Room domain of "101", "", "101", "204" is
    ["101"; "204"]. *)
Theorem domain_distinct_truthy_values :
  (forall rows fld, exists d, extractDomain rows fld = Some d /\ NoDup d /\
     (forall v, In v d <-> truthy v = true /\ exists r, In r rows /\ get_field fld r = v)) /\
  (forall s, truthy (JStr s) = true <-> s <> "") /\
  extractDomain [room_row (JStr "101"); room_row (JStr ""); room_row (JStr "101");
                 room_row (JStr "204")] FRoom = Some [JStr "101"; JStr "204"].
Proof.
  split; [exact extractDomain_spec|]. split; [|vm_compute; reflexivity].
  intros s. simpl. rewrite negb_true_iff, String.eqb_neq. tauto.
Qed.

(** C4: a Room value [0] occurs in the rows but not in the domain. *)
Lemma domain_drops_zero_value :
  get_field FRoom (room_row (JNum 0)) = JNum 0 /\
  extractDomain [room_row (JNum 0)] FRoom = Some [].
Proof. vm_compute. split; reflexivity. Qed.

(** C5 (amended): the rank of a Time Slot value is [Number] of the digits
    of the first match of [/slot\s*(\d+)/i], which is their integer value
    below 2^53 (larger ones are rounded to a double); "Slot 2" has rank 2
    and "Slot 10" rank 10, so "Slot 2" comes before "Slot 10" in the
    Time-Slot domain and, among rows of the same Day, in the query result,
    whenever distinct Day values of the rows have distinct day ranks. *)
Theorem slot_rank_numeric :
  (forall pre t d, slot_occurrence t d ->
     (forall j d', (j < String.length pre)%nat -> ~ slot_occurrence (drop j (pre ++ t)) d') ->
     slotOrder (JStr (pre ++ t)) = Number_of_digits d /\
     (digits_value d < 2 ^ 53 -> slotOrder (JStr (pre ++ t)) = NFin (digits_value d))) /\
  slotOrder (JStr "Slot 2") = NFin 2 /\ slotOrder (JStr "Slot 10") = NFin 10 /\
  (forall rows d, extractDomain rows FSlot = Some d ->
     In (JStr "Slot 2") d -> In (JStr "Slot 10") d ->
     exists l1 l2 l3, d = app l1 (JStr "Slot 2" :: app l2 (JStr "Slot 10" :: l3))) /\
  (forall lc rows i l a b, day_ranks_distinct rows -> render lc rows i = Shown l ->
     Day a = Day b -> Time_Slot a = JStr "Slot 2" -> Time_Slot b = JStr "Slot 10" ->
     (forall l1 l2 l3, l <> app l1 (b :: app l2 (a :: l3))) /\
     (In a l -> In b l -> exists l1 l2 l3, l = app l1 (a :: app l2 (b :: l3)))).
Proof.
  split.
  { intros pre t d Hocc Hfirst. apply slot_exec_rank. apply slot_exec_first; auto. }
  split; [reflexivity|]. split; [reflexivity|]. split.
  - intros rows d Hd H2 H10. apply (domain_slot_before rows); auto.
  - intros lc rows i l a b Hd H Hday Ha Hb.
    apply (render_slot_before lc rows i l a b Hd H Hday).
    rewrite Ha, Hb. reflexivity.
Qed.

(** The rows are listed Monday "Slot 10", an unknown day, Monday
    "Slot 2", Sunday; the query shows the Monday "Slot 2" row before the
    Monday "Slot 10" row. *)
Lemma slot_rank_numeric_witness :
  exists l1 l2 l3,
    [slot_row "Sunday" "Slot 3"; slot_row "Monday" "Slot 2";
     slot_row "Monday" "Slot 10"; slot_row "Funday" "Slot 1"]
    = app l1 (slot_row "Monday" "Slot 2" :: app l2 (slot_row "Monday" "Slot 10" :: l3)).
Proof.
  pose proof (proj2 (proj2 (proj2 (proj2 slot_rank_numeric))) String.compare
    [slot_row "Monday" "Slot 10"; slot_row "Funday" "Slot 1";
     slot_row "Monday" "Slot 2"; slot_row "Sunday" "Slot 3"] c5_inputs
    [slot_row "Sunday" "Slot 3"; slot_row "Monday" "Slot 2";
     slot_row "Monday" "Slot 10"; slot_row "Funday" "Slot 1"]
    (slot_row "Monday" "Slot 2") (slot_row "Monday" "Slot 10")
    ltac:(apply day_ranks_distinctb_spec; vm_compute; reflexivity) ltac:(vm_compute; reflexivity)
    eq_refl eq_refl eq_refl) as [_ Hq].
  apply Hq.
  - simpl. auto.
  - simpl. auto.
Defined.

(** C5: past 2^53 the rank is not the integer written in the value. *)
Lemma slot_rank_rounded :
  digits_value "9007199254740995" = 9007199254740995 /\
  slotOrder (JStr "Slot 9007199254740995") = NFin 9007199254740996.
Proof. vm_compute. split; reflexivity. Qed.

(** C6 (amended): a value in which no "slot" (any case) is followed by
    white space and digits gets the rank 9999.  It comes after every value
    of rank below 9999 (a first match of value below 9999, for instance)
    and before every value of rank above 9999 ("Slot 10000", for
    instance), in the Time-Slot domain and, among rows of the same Day, in
    the query result whenever distinct Day values of the rows have
    distinct day ranks. *)
Theorem unranked_slot_after_small_ranks :
  (forall v, (forall j d, ~ slot_occurrence (drop j (to_string (or_empty v))) d) ->
     slotOrder v = NFin 9999) /\
  (forall pre t d, slot_occurrence t d ->
     (forall j d', (j < String.length pre)%nat -> ~ slot_occurrence (drop j (pre ++ t)) d') ->
     digits_value d < 9999 -> num_compare (slotOrder (JStr (pre ++ t))) (NFin 9999) = Lt) /\
  (forall rows d x y, extractDomain rows FSlot = Some d -> In x d -> In y d ->
     slotOrder y = NFin 9999 ->
     (num_compare (slotOrder x) (NFin 9999) = Lt ->
        exists l1 l2 l3, d = app l1 (x :: app l2 (y :: l3))) /\
     (num_compare (NFin 9999) (slotOrder x) = Lt ->
        exists l1 l2 l3, d = app l1 (y :: app l2 (x :: l3)))) /\
  (forall lc rows i l a b, day_ranks_distinct rows -> render lc rows i = Shown l ->
     Day a = Day b -> slotOrder (Time_Slot b) = NFin 9999 ->
     (num_compare (slotOrder (Time_Slot a)) (NFin 9999) = Lt ->
        (forall l1 l2 l3, l <> app l1 (b :: app l2 (a :: l3))) /\
        (In a l -> In b l -> exists l1 l2 l3, l = app l1 (a :: app l2 (b :: l3)))) /\
     (num_compare (NFin 9999) (slotOrder (Time_Slot a)) = Lt ->
        (forall l1 l2 l3, l <> app l1 (a :: app l2 (b :: l3))) /\
        (In a l -> In b l -> exists l1 l2 l3, l = app l1 (b :: app l2 (a :: l3))))).
Proof.
  split.
  { intros v Hnone. unfold slotOrder.
    destruct (slot_exec (to_string (or_empty v))) as [d|] eqn:E; [|reflexivity].
    exfalso. destruct (slot_exec_sound _ _ E) as [j Hj]. exact (Hnone j d Hj). }
  split.
  { intros pre t d Hocc Hfirst Hlt.
    destruct (slot_exec_rank _ _ (slot_exec_first pre t d Hocc Hfirst)) as [_ Hr].
    rewrite Hr by lia. simpl. apply Z.compare_lt_iff. exact Hlt. }
  split.
  - intros rows d x y Hd Hx Hy Hy9. rewrite <- Hy9. split; intros Hlt.
    + apply (domain_slot_before rows); auto.
    + apply (domain_slot_before rows); auto.
  - intros lc rows i l a b Hd H Hday Hb9. rewrite <- Hb9. split; intros Hlt.
    + exact (render_slot_before lc rows i l a b Hd H Hday Hlt).
    + destruct (render_slot_before lc rows i l b a Hd H (eq_sym Hday) Hlt) as [H1 H2].
      split; [exact H1|]. intros Ha Hb. exact (H2 Hb Ha).
Qed.

(** Three Monday rows, "Slot 10000", "Lab" and "Slot 3": the query shows
    "Slot 3", then the unranked "Lab", then "Slot 10000". *)
Lemma unranked_slot_after_small_ranks_witness :
  (exists l1 l2 l3,
     [slot_row "Monday" "Slot 3"; slot_row "Monday" "Lab"; slot_row "Monday" "Slot 10000"]
     = app l1 (slot_row "Monday" "Slot 3" :: app l2 (slot_row "Monday" "Lab" :: l3))) /\
  (exists l1 l2 l3,
     [slot_row "Monday" "Slot 3"; slot_row "Monday" "Lab"; slot_row "Monday" "Slot 10000"]
     = app l1 (slot_row "Monday" "Lab" :: app l2 (slot_row "Monday" "Slot 10000" :: l3))).
Proof.
  pose proof (proj2 (proj2 (proj2 unranked_slot_after_small_ranks)) String.compare
    [slot_row "Monday" "Slot 10000"; slot_row "Monday" "Lab"; slot_row "Monday" "Slot 3"]
    monday_inputs
    [slot_row "Monday" "Slot 3"; slot_row "Monday" "Lab"; slot_row "Monday" "Slot 10000"])
    as Hq.
  split.
  - apply (proj2 (proj1 (Hq (slot_row "Monday" "Slot 3") (slot_row "Monday" "Lab")
      ltac:(apply day_ranks_distinctb_spec; vm_compute; reflexivity) ltac:(vm_compute; reflexivity)
      eq_refl ltac:(vm_compute; reflexivity)) ltac:(vm_compute; reflexivity))).
    + simpl. auto.
    + simpl. auto.
  - apply (proj2 (proj2 (Hq (slot_row "Monday" "Slot 10000") (slot_row "Monday" "Lab")
      ltac:(apply day_ranks_distinctb_spec; vm_compute; reflexivity) ltac:(vm_compute; reflexivity)
      eq_refl ltac:(vm_compute; reflexivity)) ltac:(vm_compute; reflexivity))).
    + simpl. auto.
    + simpl. auto.
Defined.

(** C6: "Slot 10000" has a rank above the sentinel, so the unranked "Lab"
    comes before it in the Time-Slot domain. *)
Lemma slot_rank_above_sentinel :
  slotOrder (JStr "Slot 10000") = NFin 10000 /\ slotOrder (JStr "Lab") = NFin 9999 /\
  extractDomain [slot_row "Monday" "Slot 10000"; slot_row "Monday" "Lab"] FSlot
  = Some [JStr "Lab"; JStr "Slot 10000"].
Proof. vm_compute. repeat split. Qed.

(** C7 (defect): the query is not total.  Two Monday rows of the same
    slot with the numeric Course Codes [5] and [6] both match the Day
    filter; [(a["Course Code"] || "")] keeps the truthy number [5], which
    has no [localeCompare] method, so the sort throws a TypeError for
    every collation, while the same values pass [join] in the matching,
    the domain extraction and [escapeHtml]. *)
Theorem numeric_courses_throw : forall lc,
  applyFilters [course_row (JNum 5); course_row (JNum 6)] (currentFilters monday_inputs)
  = [course_row (JNum 5); course_row (JNum 6)] /\
  routine_cmp lc (course_row (JNum 6)) (course_row (JNum 5)) = None /\
  render lc [course_row (JNum 5); course_row (JNum 6)] monday_inputs = TypeError /\
  extractDomain [course_row (JNum 5); course_row (JNum 6)] FCourse = Some [JNum 5; JNum 6] /\
  escapeHtml (JNum 5) = "5".
Proof. intros lc. vm_compute. repeat split. Qed.

(** C8 (defect): re-sorting is not idempotent.  With a [localeCompare]
    that orders "3" before "5", the query over a row with Course Code [5]
    and a row with Course Code "3" shows the "3" row first; sorting that
    result again with the same comparator calls [localeCompare] on [5]
    and throws, instead of returning the same sequence. *)
Theorem resort_throws : forall lc, lc "3" "5" = Lt ->
  render lc [course_row (JNum 5); course_row (JStr "3")] monday_inputs
  = Shown [course_row (JStr "3"); course_row (JNum 5)] /\
  array_sort (routine_cmp lc) [course_row (JStr "3"); course_row (JNum 5)] = None.
Proof.
  intros lc H. unfold render. vm_compute. rewrite H. split; reflexivity.
Qed.

Lemma resort_throws_witness :
  render String.compare [course_row (JNum 5); course_row (JStr "3")] monday_inputs
  = Shown [course_row (JStr "3"); course_row (JNum 5)] /\
  array_sort (routine_cmp String.compare) [course_row (JStr "3"); course_row (JNum 5)] = None.
Proof. apply resort_throws. reflexivity. Defined.

(** C9: the query is trimmed before use: white space around it changes
    neither the filter object, nor the matching rows, nor the query; a
    query of white space only is unset, and with the six selects unset the
    query is [inactive]. *)
Theorem query_whitespace_trimmed : forall lc rows i w1 w2,
  all_ws w1 = true -> all_ws w2 = true ->
  currentFilters (with_q i (w1 ++ in_q i ++ w2)) = currentFilters i /\
  applyFilters rows (currentFilters (with_q i (w1 ++ in_q i ++ w2)))
    = applyFilters rows (currentFilters i) /\
  render lc rows (with_q i (w1 ++ in_q i ++ w2)) = render lc rows i /\
  (all_ws (in_q i) = true -> in_day i = "" -> in_slot i = "" -> in_course i = "" ->
   in_teacher i = "" -> in_semsec i = "" -> in_room i = "" ->
   f_q (currentFilters i) = "" /\ render lc rows i = Inactive /\
   state_of (render lc rows i) = SInactive).
Proof.
  intros lc rows i w1 w2 H1 H2.
  assert (Hf : currentFilters (with_q i (w1 ++ in_q i ++ w2)) = currentFilters i).
  { unfold currentFilters, with_q.
    cbn [in_q in_day in_slot in_course in_teacher in_semsec in_room].
    rewrite trim_ws_pad by assumption. reflexivity. }
  split; [exact Hf|]. split; [rewrite Hf; reflexivity|].
  split; [unfold render; rewrite Hf; reflexivity|].
  intros Hq Hd Hs Hc Ht Hss Hr.
  assert (Hq' : f_q (currentFilters i) = "").
  { change (toLowerCase (trim (in_q i)) = ""). rewrite trim_all_ws by exact Hq. reflexivity. }
  assert (Hn : hasAnyFilter (currentFilters i) = false).
  { unfold hasAnyFilter. rewrite Hq'.
    cbn [currentFilters f_day f_slot f_course f_teacher f_semsec f_room].
    rewrite Hd, Hs, Hc, Ht, Hss, Hr. reflexivity. }
  rewrite render_inactive by exact Hn. auto.
Qed.

Lemma query_whitespace_trimmed_witness :
  render String.compare [ex_row_mon; ex_row_sun]
    (with_q (mkInputs "dr. a" "" "" "" "" "" "") (" " ++ "dr. a" ++ "  "))
  = render String.compare [ex_row_mon; ex_row_sun] (mkInputs "dr. a" "" "" "" "" "" "").
Proof.
  exact (proj1 (proj2 (proj2 (query_whitespace_trimmed String.compare
    [ex_row_mon; ex_row_sun] (mkInputs "dr. a" "" "" "" "" "" "") " " "  " eq_refl eq_refl)))).
Defined.

(** C10 (amended): "slot" need not be a word of its own and any white space
    may follow it: when [t] starts with "slot" (any case), white space and
    the digits [d], and no such occurrence starts earlier in [pre ++ t],
    the rank of [pre ++ t] is [Number(d)], the value of [d] below 2^53. *)
Theorem slot_rank_first_occurrence : forall pre t d,
  slot_occurrence t d ->
  (forall j d', (j < String.length pre)%nat -> ~ slot_occurrence (drop j (pre ++ t)) d') ->
  slotOrder (JStr (pre ++ t)) = Number_of_digits d /\
  (digits_value d < 2 ^ 53 -> slotOrder (JStr (pre ++ t)) = NFin (digits_value d)).
Proof.
  intros pre t d Hocc Hfirst. apply slot_exec_rank. apply slot_exec_first; auto.
Qed.

Lemma slot_rank_first_occurrence_witness :
  slotOrder (JStr ("Time" ++ "slot3")) = Number_of_digits "3" /\
  (digits_value "3" < 2 ^ 53 -> slotOrder (JStr ("Time" ++ "slot3")) = NFin (digits_value "3")).
Proof.
  apply slot_rank_first_occurrence.
  - exists "slot", "", "". repeat split; try reflexivity. discriminate.
  - intros j d' Hj. apply no_occurrence_here.
    destruct j as [|[|[|[|j]]]]; try reflexivity. simpl in Hj. lia.
Defined.

(** C10: past 2^53 the rank is not the value of the digits. *)
Lemma slot_digits_rounded :
  digits_value "9007199254740993" = 9007199254740993 /\
  slotOrder (JStr "Timeslot9007199254740993") = NFin 9007199254740992.
Proof. vm_compute. split; reflexivity. Qed.

(* ================================================================== *)
(** * Further properties of the code *)

(* ------------------------------------------------------------------ *)
(** ** Escaping *)

Lemma str_app_assoc : forall a b c : string, (a ++ b) ++ c = a ++ (b ++ c).
Proof. induction a as [|x a IH]; intros b c; simpl; [reflexivity|]. rewrite IH. reflexivity. Qed.

Lemma str_app_nil_r : forall a : string, a ++ "" = a.
Proof. induction a as [|x a IH]; simpl; [reflexivity|]. rewrite IH. reflexivity. Qed.

Fixpoint map_str (f : ascii -> string) (s : string) : string :=
  match s with
  | EmptyString => EmptyString
  | String x t => f x ++ map_str f t
  end.

(** What [escapeHtml] writes for one character. *)
Definition escape_char (x : ascii) : string :=
  if Ascii.eqb x "&"%char then "&amp;"
  else if Ascii.eqb x "<"%char then "&lt;"
  else if Ascii.eqb x ">"%char then "&gt;"
  else if Ascii.eqb x "034"%char then "&quot;"
  else if Ascii.eqb x "'"%char then "&#039;"
  else String x "".

Lemma replace_char_app : forall c rep a b,
  replace_char c rep (a ++ b) = replace_char c rep a ++ replace_char c rep b.
Proof.
  intros c rep a b. induction a as [|x a IH]; simpl; [reflexivity|].
  destruct (Ascii.eqb x c); rewrite IH; [rewrite str_app_assoc|]; reflexivity.
Qed.

Lemma escape_steps_app : forall a b, escape_steps (a ++ b) = escape_steps a ++ escape_steps b.
Proof. intros a b. unfold escape_steps. rewrite !replace_char_app. reflexivity. Qed.

Lemma escape_steps_char : forall x, escape_steps (String x "") = escape_char x.
Proof. intros x. destruct x as [[] [] [] [] [] [] [] []]; reflexivity. Qed.

(** The five [replaceAll] steps amount to one pass over the characters. *)
Lemma escape_steps_map : forall s, escape_steps s = map_str escape_char s.
Proof.
  induction s as [|x s IH]; [reflexivity|].
  change (String x s) with (String x "" ++ s).
  rewrite escape_steps_app, escape_steps_char, IH. reflexivity.
Qed.

Lemma count_char_app : forall c a b, count_char c (a ++ b) = (count_char c a + count_char c b)%nat.
Proof.
  intros c a b. induction a as [|x a IH]; simpl; [reflexivity|].
  destruct (Ascii.eqb x c); rewrite IH; reflexivity.
Qed.

Lemma count_char_escape_char : forall x,
  count_char "<"%char (escape_char x) = O /\ count_char ">"%char (escape_char x) = O /\
  count_char "034"%char (escape_char x) = O /\ count_char "'"%char (escape_char x) = O.
Proof. intros x. destruct x as [[] [] [] [] [] [] [] []]; vm_compute; auto. Qed.

Lemma count_char_escape : forall s,
  count_char "<"%char (map_str escape_char s) = O /\ count_char ">"%char (map_str escape_char s) = O /\
  count_char "034"%char (map_str escape_char s) = O /\ count_char "'"%char (map_str escape_char s) = O.
Proof.
  induction s as [|x s IH]; [vm_compute; auto|]. simpl.
  rewrite !count_char_app. destruct (count_char_escape_char x) as (H1 & H2 & H3 & H4).
  destruct IH as (I1 & I2 & I3 & I4). rewrite H1, H2, H3, H4, I1, I2, I3, I4. auto.
Qed.

Lemma html_unescape_escape_char : forall x t,
  html_unescape (escape_char x ++ t) = String x (html_unescape t).
Proof. intros x t. destruct x as [[] [] [] [] [] [] [] []]; reflexivity. Qed.

Lemma html_unescape_map : forall s, html_unescape (map_str escape_char s) = s.
Proof.
  induction s as [|x s IH]; [reflexivity|]. simpl.
  rewrite html_unescape_escape_char, IH. reflexivity.
Qed.

Lemma escape_char_nonempty : forall x, escape_char x <> "".
Proof. intros x. destruct x as [[] [] [] [] [] [] [] []]; discriminate. Qed.

Lemma map_escape_empty : forall s, map_str escape_char s = "" <-> s = "".
Proof.
  intros [|x s]; simpl; split; intros H; try reflexivity; try discriminate.
  destruct (escape_char x) eqn:E; [apply escape_char_nonempty in E; contradiction|discriminate].
Qed.

Lemma dec_aux_nonempty : forall f n acc, acc <> "" -> dec_aux f n acc <> "".
Proof.
  induction f as [|f IH]; intros n acc H; simpl; auto.
  destruct (n <? 10); [discriminate|]. apply IH. discriminate.
Qed.

Lemma number_to_string_nonempty : forall n, number_to_string n <> "".
Proof.
  intros n. unfold number_to_string, dec_string.
  destruct (n <? 0); [discriminate|]. simpl.
  destruct (n <? 10); [discriminate|]. apply dec_aux_nonempty. discriminate.
Qed.

(* ------------------------------------------------------------------ *)
(** ** Order of the sorted lists *)

Lemma loc_sorted_rel : forall (A : Type) (cmp : A -> A -> option comparison)
  (P : A -> Prop) (R : A -> A -> Prop) l,
  (forall x y, P x -> P y -> cmp y x <> Some Lt -> R x y) ->
  Forall P l -> loc_sorted cmp l -> Sorted R l.
Proof.
  intros A cmp P R l HR. induction l as [|x t IH]; intros Hl Hs; [constructor|].
  inversion Hl as [|? ? Hx Ht]; subst. destruct Hs as [Hh Hs].
  constructor; auto. destruct t as [|y t']; constructor.
  inversion Ht; subst. apply HR; auto.
Qed.

Lemma str_compare_trans_le : forall a b c,
  String.compare a b <> Gt -> String.compare b c <> Gt -> String.compare a c <> Gt.
Proof.
  induction a as [|x a IH]; intros [|y b] [|z c]; simpl; intros H1 H2; try congruence.
  unfold Ascii.compare in *.
  destruct (N.compare_spec (N_of_ascii x) (N_of_ascii y)) as [Exy|Exy|Exy];
  destruct (N.compare_spec (N_of_ascii y) (N_of_ascii z)) as [Eyz|Eyz|Eyz];
  destruct (N.compare_spec (N_of_ascii x) (N_of_ascii z)) as [Exz|Exz|Exz];
  try congruence; try lia.
  eapply IH; eauto.
Qed.

Lemma domain_elems : forall rows fld d v,
  extractDomain rows fld = Some d -> In v d -> exists r, In r rows /\ get_field fld r = v.
Proof.
  intros rows fld d v Hd Hv.
  destruct (extractDomain_spec rows fld) as (d' & Hd' & _ & Hin).
  rewrite Hd in Hd'. injection Hd' as <-. apply Hin in Hv as [_ Hv]. exact Hv.
Qed.

Lemma weekday_cases : forall r, weekday_row r ->
  exists d, Day r = JStr d /\
  (d = "Sunday" \/ d = "Monday" \/ d = "Tuesday" \/ d = "Wednesday" \/
   d = "Thursday" \/ d = "Friday" \/ d = "Saturday").
Proof.
  intros r (d & Hd & Hin). exists d. split; auto. simpl in Hin. intuition.
Qed.

Lemma weekday_rank : forall x y, weekday_row x -> weekday_row y ->
  dayOrder (Day x) = Some (day_rank (Day x)) /\
  (Day x <> Day y -> day_rank (Day x) <> day_rank (Day y)).
Proof.
  intros x y Hx Hy.
  destruct (weekday_cases x Hx) as (dx & Ex & Hdx).
  destruct (weekday_cases y Hy) as (dy & Ey & Hdy).
  rewrite Ex, Ey.
  destruct Hdx as [-> | [-> | [-> | [-> | [-> | [-> | ->]]]]]];
  destruct Hdy as [-> | [-> | [-> | [-> | [-> | [-> | ->]]]]]];
  split; try reflexivity; intros Hne; vm_compute; congruence.
Qed.

(* ------------------------------------------------------------------ *)
(** ** Free text and filters *)

Lemma is_ws_lower : forall c, is_ws (lower_char c) = is_ws c.
Proof. intros c. destruct c as [[] [] [] [] [] [] [] []]; reflexivity. Qed.

Lemma toLowerCase_empty : forall s, toLowerCase s = "" <-> s = "".
Proof. intros [|c s]; simpl; split; intros H; congruence. Qed.

Lemma toLowerCase_trim_start : forall s, toLowerCase (trim_start s) = trim_start (toLowerCase s).
Proof.
  induction s as [|c s IH]; simpl; [reflexivity|]. rewrite is_ws_lower.
  destruct (is_ws c); simpl; auto.
Qed.

Lemma toLowerCase_eqb_empty : forall s, String.eqb (toLowerCase s) "" = String.eqb s "".
Proof. intros [|c s]; reflexivity. Qed.

Lemma toLowerCase_trim_end : forall s, toLowerCase (trim_end s) = trim_end (toLowerCase s).
Proof.
  induction s as [|c s IH]; simpl; [reflexivity|].
  rewrite <- IH, is_ws_lower, toLowerCase_eqb_empty.
  destruct (String.eqb (trim_end s) "" && is_ws c); reflexivity.
Qed.

Lemma toLowerCase_trim : forall s, toLowerCase (trim s) = trim (toLowerCase s).
Proof. intros s. unfold trim. rewrite toLowerCase_trim_end, toLowerCase_trim_start. reflexivity. Qed.

(** [f'] narrows [f]: each predicate set in [f] is set to the same value in [f']. *)
Definition narrows (f' f : filters) : Prop :=
  (f_q f = "" \/ f_q f' = f_q f) /\ (f_day f = "" \/ f_day f' = f_day f) /\
  (f_slot f = "" \/ f_slot f' = f_slot f) /\ (f_course f = "" \/ f_course f' = f_course f) /\
  (f_teacher f = "" \/ f_teacher f' = f_teacher f) /\
  (f_semsec f = "" \/ f_semsec f' = f_semsec f) /\ (f_room f = "" \/ f_room f' = f_room f).

Lemma cat_ok_narrows : forall s s' v, (s = "" \/ s' = s) -> cat_ok s' v = true -> cat_ok s v = true.
Proof. intros s s' v [-> | ->] H; auto. Qed.

Lemma row_matches_narrows : forall f' f r, narrows f' f ->
  row_matches f' r = true -> row_matches f r = true.
Proof.
  intros f' f r (Hq & Hd & Hs & Hc & Ht & Hss & Hr) H. unfold row_matches in *.
  repeat rewrite andb_true_iff in *.
  destruct H as [[[[[[HQ HD] HS] HC] HT] HSS] HR].
  repeat split; try (eapply cat_ok_narrows; eauto).
  destruct Hq as [-> | <-]; auto.
Qed.

Lemma filter_narrows : forall (A : Type) (p q : A -> bool) l,
  (forall x, p x = true -> q x = true) -> filter p l = filter p (filter q l).
Proof.
  intros A p q l H. induction l as [|x t IH]; simpl; [reflexivity|].
  destruct (p x) eqn:Ep.
  - rewrite (H x Ep). simpl. rewrite Ep, IH. reflexivity.
  - destruct (q x); simpl; [rewrite Ep|]; exact IH.
Qed.

Lemma row_matches_select : forall fld s r,
  row_matches (currentFilters (select_input fld s)) r = cat_ok s (get_field fld r).
Proof.
  intros fld s r. destruct fld; unfold row_matches, cat_ok; simpl;
    repeat rewrite andb_true_r; reflexivity.
Qed.

Lemma hasAnyFilter_select : forall fld s, s <> "" ->
  hasAnyFilter (currentFilters (select_input fld s)) = true.
Proof.
  intros fld s H. apply String.eqb_neq in H.
  destruct fld; unfold hasAnyFilter, str_truthy; simpl; rewrite H; simpl;
    rewrite ?orb_true_r; reflexivity.
Qed.

Lemma render_shown_in : forall lc rows i l r,
  render lc rows i = Shown l -> In r l -> In r rows.
Proof.
  intros lc rows i l r H Hr. apply render_shown in H as [_ Hs].
  apply array_sort_perm in Hs. apply (Permutation_in _ (Permutation_sym Hs)) in Hr.
  apply filter_In in Hr as [Hr _]. exact Hr.
Qed.

Lemma count_char_concat : forall c l,
  count_char c (String.concat "" l) = fold_right (fun s n => (count_char c s + n)%nat) O l.
Proof.
  intros c l. induction l as [|x t IH]; [reflexivity|].
  destruct t as [|y t'].
  - simpl. lia.
  - change (String.concat "" (x :: y :: t')) with (x ++ "" ++ String.concat "" (y :: t')).
    rewrite !count_char_app, IH. simpl. lia.
Qed.

Lemma count_lt_escape : forall v, count_char "<"%char (escapeHtml v) = O.
Proof. intros v. unfold escapeHtml. rewrite escape_steps_map. apply count_char_escape. Qed.

Lemma count_gt_escape : forall v, count_char ">"%char (escapeHtml v) = O.
Proof. intros v. unfold escapeHtml. rewrite escape_steps_map. apply count_char_escape. Qed.

Lemma row_html_tags : forall r,
  count_char "<"%char (row_html r) = 18%nat /\ count_char ">"%char (row_html r) = 18%nat.
Proof.
  intros r. unfold row_html. rewrite !count_char_app, !count_lt_escape, !count_gt_escape.
  split; reflexivity.
Qed.

Lemma rows_html_tags : forall l,
  count_char "<"%char (String.concat "" (map row_html l)) = (18 * List.length l)%nat /\
  count_char ">"%char (String.concat "" (map row_html l)) = (18 * List.length l)%nat.
Proof.
  intros l. rewrite !count_char_concat. induction l as [|r t [IH1 IH2]]; [split; reflexivity|].
  cbn [map fold_right List.length]. destruct (row_html_tags r) as [H1 H2].
  rewrite H1, H2, IH1, IH2. split; lia.
Qed.

(* ------------------------------------------------------------------ *)
(** ** Properties beyond the specification's claims *)

(** X1: [escapeHtml] never outputs [<], [>], a double quote or [']. *)
Theorem escapeHtml_no_markup : forall v,
  count_char "<"%char (escapeHtml v) = O /\ count_char ">"%char (escapeHtml v) = O /\
  count_char "034"%char (escapeHtml v) = O /\ count_char "'"%char (escapeHtml v) = O.
Proof. intros v. unfold escapeHtml. rewrite escape_steps_map. apply count_char_escape. Qed.

(** X2: escaping a string loses nothing: decoding the five entities gives
    it back, so two strings escape alike only if they are equal. *)
Theorem escapeHtml_round_trip : forall s,
  html_unescape (escapeHtml (JStr s)) = s /\
  (forall t, escapeHtml (JStr s) = escapeHtml (JStr t) -> s = t).
Proof.
  assert (Hr : forall s, html_unescape (escapeHtml (JStr s)) = s)
    by (intros s; unfold escapeHtml; rewrite escape_steps_map; apply html_unescape_map).
  intros s. split; [apply Hr|]. intros t H. rewrite <- (Hr s), <- (Hr t), H. reflexivity.
Qed.

Lemma escapeHtml_round_trip_witness :
  html_unescape (escapeHtml (JStr "a<'b'>")) = "a<'b'>" /\ "a<'b'>" = "a<'b'>".
Proof.
  split; [apply (proj1 (escapeHtml_round_trip "a<'b'>"))|].
  apply (proj2 (escapeHtml_round_trip "a<'b'>") "a<'b'>"). reflexivity.
Defined.

(** X3: for the values of the model (absent, [null], booleans, integers
    and strings), a cell is empty only for [undefined], [null] and [""]:
    [0] and [false] are printed. *)
Theorem escapeHtml_empty_iff : forall v,
  escapeHtml v = "" <-> v = JUndefined \/ v = JNull \/ v = JStr "".
Proof.
  intros v. unfold escapeHtml. rewrite escape_steps_map, map_escape_empty.
  destruct v as [| |[]|n|s]; simpl; split; intros H;
    try (destruct H as [H|[H|H]]; congruence);
    try (exfalso; apply (number_to_string_nonempty n); exact H);
    try discriminate; subst; auto.
Qed.

(** X4: field values add no markup to the table: for [n > 0] shown rows
    the table body holds exactly [18 * n] [<] and [18 * n] [>] (the tags of
    the row template), and the count reads "n class(es) found". *)
Theorem table_markup_per_row : forall p l, l <> [] ->
  count_char "<"%char (tbody_html (render_page p (Shown l))) = (18 * List.length l)%nat /\
  count_char ">"%char (tbody_html (render_page p (Shown l))) = (18 * List.length l)%nat /\
  count_text (render_page p (Shown l))
    = number_to_string (Z.of_nat (List.length l)) ++ " class(es) found".
Proof.
  intros p l Hl. destruct l as [|r t]; [contradiction|].
  unfold render_page. cbn [tbody_html count_text].
  destruct (rows_html_tags (r :: t)) as [H1 H2]. auto.
Qed.

Lemma table_markup_per_row_witness :
  count_char "<"%char (tbody_html (render_page (mkPage "" "") (Shown [ex_row_mon; ex_row_sun])))
    = 36%nat /\
  count_char ">"%char (tbody_html (render_page (mkPage "" "") (Shown [ex_row_mon; ex_row_sun])))
    = 36%nat /\
  count_text (render_page (mkPage "" "") (Shown [ex_row_mon; ex_row_sun]))
    = "2 class(es) found".
Proof. apply (table_markup_per_row (mkPage "" "") [ex_row_mon; ex_row_sun]). discriminate. Defined.

(** X5: the free-text query is case-insensitive: two queries with the same
    lowercase form give the same filters and the same result. *)
Theorem free_text_case_insensitive : forall lc rows i q1 q2,
  toLowerCase q1 = toLowerCase q2 ->
  currentFilters (with_q i q1) = currentFilters (with_q i q2) /\
  render lc rows (with_q i q1) = render lc rows (with_q i q2).
Proof.
  intros lc rows i q1 q2 H.
  assert (Hf : currentFilters (with_q i q1) = currentFilters (with_q i q2)).
  { unfold currentFilters, with_q.
    cbn [in_q in_day in_slot in_course in_teacher in_semsec in_room].
    rewrite !toLowerCase_trim, H. reflexivity. }
  split; [exact Hf|]. unfold render. rewrite Hf. reflexivity.
Qed.

Lemma free_text_case_insensitive_witness :
  render String.compare [ex_row_mon; ex_row_sun] (with_q no_input "CSE101")
  = render String.compare [ex_row_mon; ex_row_sun] (with_q no_input "cse101").
Proof. apply (free_text_case_insensitive String.compare). reflexivity. Defined.

(** X6: setting more predicates only narrows the matches: the rows matched
    by the narrower filters are those of the wider ones that also match
    the narrower ones, in the same order. *)
Theorem applyFilters_narrows : forall rows f f',
  narrows f' f -> applyFilters rows f' = applyFilters (applyFilters rows f) f'.
Proof.
  intros rows f f' H. unfold applyFilters. apply filter_narrows.
  intros r. apply row_matches_narrows. exact H.
Qed.

Lemma applyFilters_narrows_witness :
  applyFilters [ex_row_mon; ex_row_sun; ex_row_wed] (mkFilters "" "Monday" "Slot 1" "" "" "" "")
  = applyFilters (applyFilters [ex_row_mon; ex_row_sun; ex_row_wed]
                   (mkFilters "" "Monday" "" "" "" "" ""))
                 (mkFilters "" "Monday" "Slot 1" "" "" "" "").
Proof.
  apply applyFilters_narrows.
  repeat split; first [left; reflexivity | right; reflexivity].
Defined.

(** X7: when every row's Day is one of the seven names of [DAY_ORDER]
    (and [localeCompare] is antisymmetric), the shown rows are in week
    order (Sunday first) and, within a day, in ascending slot rank. *)
Theorem query_week_slot_order : forall lc,
  (forall s t, lc s t = CompOpp (lc t s)) ->
  forall rows i l, Forall weekday_row rows -> render lc rows i = Shown l ->
  StronglySorted week_slot_le l.
Proof.
  intros lc Hlc rows i l Hw H.
  assert (Hwl : Forall weekday_row l).
  { apply Forall_forall. intros r Hr. rewrite Forall_forall in Hw.
    apply Hw. exact (render_shown_in lc rows i l r H Hr). }
  apply render_shown in H as [_ Hs].
  pose proof (array_sort_sorted row (routine_cmp lc) (routine_cmp_antisym lc Hlc) _ _ Hs)
    as Hsorted.
  apply Sorted_StronglySorted; [exact week_slot_le_trans|].
  apply (loc_sorted_rel row (routine_cmp lc) weekday_row); auto.
  intros x y Hx Hy Hc. unfold routine_cmp in Hc.
  destruct (weekday_rank x y Hx Hy) as [Dx Nxy].
  destruct (weekday_rank y x Hy Hx) as [Dy _].
  unfold week_slot_le.
  destruct (jsval_eqb (Day y) (Day x)) eqn:E; simpl in Hc.
  - apply jsval_eqb_true in E. right. split; [rewrite E; reflexivity|].
    destruct (num_eqb (slotOrder (Time_Slot y)) (slotOrder (Time_Slot x))) eqn:En;
      simpl in Hc.
    + rewrite num_eqb_sym in En. rewrite (num_eqb_compare _ _ En). discriminate.
    + rewrite num_compare_antisym.
      destruct (num_compare (slotOrder (Time_Slot y)) (slotOrder (Time_Slot x)));
        simpl; congruence.
  - left. rewrite Dy, Dx in Hc. simpl in Hc.
    assert (Hne : Day x <> Day y).
    { intros Heq. rewrite Heq, (proj2 (jsval_eqb_true _ _) eq_refl) in E. discriminate. }
    apply Nxy in Hne.
    destruct (Z.compare_spec (day_rank (Day y)) (day_rank (Day x))); try congruence; lia.
Qed.

Lemma query_week_slot_order_witness :
  StronglySorted week_slot_le [ex_row_sun; ex_row_mon; ex_row_wed].
Proof.
  apply (query_week_slot_order String.compare String.compare_antisym
           [ex_row_wed; ex_row_mon; ex_row_sun] (mkInputs "dr." "" "" "" "" "" "")).
  - repeat (apply Forall_cons; [eexists; split; [reflexivity | simpl; tauto]|]).
    apply Forall_nil.
  - vm_compute. reflexivity.
Defined.

(** X8: when no Day value names a member of [Object.prototype], the Day
    domain is in [DAY_ORDER] order (Sunday to Saturday), the other values
    (rank 99) last. *)
Theorem day_domain_week_order : forall rows d,
  (forall r, In r rows -> dayOrder (Day r) <> None) ->
  extractDomain rows FDay = Some d ->
  StronglySorted (fun x y => day_rank x <= day_rank y) d.
Proof.
  intros rows d Hrows Hd.
  assert (HP : Forall (fun v => dayOrder v <> None) d).
  { apply Forall_forall. intros v Hv.
    destruct (domain_elems rows FDay d v Hd Hv) as (r & Hr & <-). apply Hrows. exact Hr. }
  assert (Hs : loc_sorted (domain_cmp FDay) d).
  { eapply array_sort_sorted; [|exact Hd].
    intros x y Hxy. simpl in *. inversion Hxy as [Hxy'].
    rewrite sub_sign_antisym, Hxy'. discriminate. }
  apply Sorted_StronglySorted; [intros a b c; lia|].
  apply (loc_sorted_rel jsval (domain_cmp FDay) (fun v => dayOrder v <> None)); auto.
  intros x y Hx Hy Hc. simpl in Hc. unfold day_rank.
  destruct (dayOrder x) as [a|]; [|contradiction].
  destruct (dayOrder y) as [b|]; [|contradiction].
  simpl in Hc. destruct (Z.compare_spec b a); try congruence; lia.
Qed.

Lemma day_domain_week_order_witness :
  StronglySorted (fun x y => day_rank x <= day_rank y)
    [JStr "Sunday"; JStr "Monday"; JStr "Wednesday"].
Proof.
  apply (day_domain_week_order [ex_row_wed; ex_row_mon; ex_row_sun]).
  - intros r Hr. simpl in Hr. destruct Hr as [<-|[<-|[<-|[]]]]; vm_compute; discriminate.
  - vm_compute. reflexivity.
Defined.

(** X9: the Time-Slot domain is in ascending slot rank. *)
Theorem slot_domain_rank_order : forall rows d,
  extractDomain rows FSlot = Some d ->
  StronglySorted (fun x y => num_compare (slotOrder x) (slotOrder y) <> Gt) d.
Proof.
  intros rows d Hd. apply domain_slot_sorted in Hd.
  apply Sorted_StronglySorted; [intros a b c; apply num_compare_trans_le|].
  apply (loc_sorted_rel jsval (domain_cmp FSlot) (fun _ => True)).
  - intros x y _ _ Hc. rewrite domain_cmp_slot_key in Hc. rewrite num_compare_antisym.
    destruct (num_compare (slotOrder y) (slotOrder x)); simpl; congruence.
  - apply Forall_forall. auto.
  - exact Hd.
Qed.

Lemma slot_domain_rank_order_witness :
  StronglySorted (fun x y => num_compare (slotOrder x) (slotOrder y) <> Gt)
    [JStr "Slot 2"; JStr "Slot 10"; JStr "Lab"].
Proof.
  apply (slot_domain_rank_order [slot_row "Monday" "Lab"; slot_row "Monday" "Slot 10";
                                 slot_row "Monday" "Slot 2"]).
  vm_compute. reflexivity.
Defined.

(** X10: the Course, Teacher, Semester & Section and Room domains are in
    ascending order of the code units of their [ToString] forms (the
    default order of [sort()]). *)
Theorem text_domain_code_unit_order : forall rows fld d,
  fld <> FDay -> fld <> FSlot -> extractDomain rows fld = Some d ->
  StronglySorted (fun x y => String.compare (to_string x) (to_string y) <> Gt) d.
Proof.
  intros rows fld d H1 H2 Hd.
  assert (Hk : forall x y, domain_cmp fld x y = Some (String.compare (to_string x) (to_string y)))
    by (destruct fld; try contradiction; reflexivity).
  assert (Hs : loc_sorted (domain_cmp fld) d).
  { eapply array_sort_sorted; [|exact Hd].
    intros x y Hxy. rewrite Hk in *. inversion Hxy as [Hxy'].
    rewrite String.compare_antisym, Hxy'. discriminate. }
  apply Sorted_StronglySorted; [intros a b c; apply str_compare_trans_le|].
  apply (loc_sorted_rel jsval (domain_cmp fld) (fun _ => True)).
  - intros x y _ _ Hc. rewrite Hk in Hc. rewrite String.compare_antisym.
    destruct (String.compare (to_string y) (to_string x)); simpl; congruence.
  - apply Forall_forall. auto.
  - exact Hs.
Qed.

Lemma text_domain_code_unit_order_witness :
  StronglySorted (fun x y => String.compare (to_string x) (to_string y) <> Gt)
    [JNum 101; JStr "204"; JStr "B-12"].
Proof.
  apply (text_domain_code_unit_order [room_row (JStr "B-12"); room_row (JStr "204");
                                      room_row (JNum 101)] FRoom).
  - discriminate.
  - discriminate.
  - vm_compute. reflexivity.
Defined.

(** X11: every string value of a domain is offered as an option; picking
    it alone selects exactly the rows whose field is that string, and at
    least one. *)
Theorem select_string_option : forall rows fld d label s,
  extractDomain rows fld = Some d -> In (JStr s) d ->
  In (s, s) (fillSelect d label) /\ s <> "" /\
  (forall r, In r (applyFilters rows (currentFilters (select_input fld s))) <->
             In r rows /\ get_field fld r = JStr s) /\
  applyFilters rows (currentFilters (select_input fld s)) <> [].
Proof.
  intros rows fld d label s Hd Hin.
  destruct (extractDomain_spec rows fld) as (d' & Hd' & _ & Hspec).
  rewrite Hd in Hd'. injection Hd' as <-.
  apply Hspec in Hin as Hin'. destruct Hin' as [Ht (r0 & Hr0 & Hf0)].
  assert (Hne : s <> "") by (simpl in Ht; apply negb_true_iff, String.eqb_neq in Ht; exact Ht).
  assert (Hmem : forall r, In r (applyFilters rows (currentFilters (select_input fld s))) <->
                           In r rows /\ get_field fld r = JStr s).
  { intros r. unfold applyFilters. rewrite filter_In, row_matches_select, cat_ok_spec.
    unfold selector_holds. split; [intros [H1 H2]; auto|intros [H1 H2]; auto]. }
  split; [right; apply in_map_iff; exists (JStr s); auto|].
  split; [exact Hne|]. split; [exact Hmem|].
  intros He. assert (Hr1 : In r0 (applyFilters rows (currentFilters (select_input fld s))))
    by (apply Hmem; auto).
  rewrite He in Hr1. destruct Hr1.
Qed.

Lemma select_string_option_witness :
  applyFilters [room_row (JStr "101"); room_row (JStr "204")]
    (currentFilters (select_input FRoom "204")) <> [].
Proof.
  apply (select_string_option [room_row (JStr "101"); room_row (JStr "204")] FRoom
           [JStr "101"; JStr "204"] "All rooms" "204").
  - vm_compute. reflexivity.
  - simpl. auto.
Defined.

(** X12: an option made from an integer or [true] shows no row unless
    some row holds the same text as a string: [===] compares the select's
    string value with the original value. *)
Theorem select_non_string_option_empty : forall lc rows fld d v,
  extractDomain rows fld = Some d -> In v d -> ((exists n, v = JNum n) \/ v = JBool true) ->
  (forall r, In r rows -> get_field fld r <> JStr (to_string v)) ->
  In (to_string v, to_string v) (fillSelect d "") /\
  render lc rows (select_input fld (to_string v)) = Shown [] /\
  state_of (render lc rows (select_input fld (to_string v))) = SEmpty.
Proof.
  intros lc rows fld d v Hd Hin Hns Hrows.
  destruct (extractDomain_spec rows fld) as (d' & Hd' & _ & Hspec).
  rewrite Hd in Hd'. injection Hd' as <-.
  apply Hspec in Hin as Hin'. destruct Hin' as [Ht _].
  assert (Hne : to_string v <> "").
  { destruct Hns as [[n ->]| ->]; simpl; [apply number_to_string_nonempty|discriminate]. }
  assert (Hempty : applyFilters rows (currentFilters (select_input fld (to_string v))) = []).
  { destruct (applyFilters rows (currentFilters (select_input fld (to_string v))))
      as [|r t] eqn:E; [reflexivity|].
    exfalso. assert (Hr : In r (r :: t)) by (left; reflexivity). rewrite <- E in Hr.
    unfold applyFilters in Hr. rewrite filter_In, row_matches_select, cat_ok_spec in Hr.
    destruct Hr as [Hr Hsel]. apply (Hrows r Hr). apply Hsel. exact Hne. }
  assert (Hr : render lc rows (select_input fld (to_string v)) = Shown []).
  { unfold render. rewrite hasAnyFilter_select by exact Hne. simpl. rewrite Hempty. reflexivity. }
  split; [right; apply in_map_iff; exists v; auto|]. rewrite Hr. auto.
Qed.

Lemma select_non_string_option_empty_witness :
  render String.compare [room_row (JNum 101)] (select_input FRoom "101") = Shown [].
Proof.
  apply (select_non_string_option_empty String.compare [room_row (JNum 101)] FRoom
           [JNum 101] (JNum 101)).
  - vm_compute. reflexivity.
  - simpl. auto.
  - left. exists 101. reflexivity.
  - intros r [<-|[]]. vm_compute. discriminate.
Defined.
